(** * Slug-to-destination resolution of [webpack.config.js]

    The build configuration turns every record of [data.yaml] into a
    template mapping for the Nunjucks plugin.  The only part with decision
    logic is the callback of [data.map]: it destructures the slug with the
    regular expression [/^(.*?)(\w[\w\-\.]*\/?)$/], rewrites the first
    capture depending on the shape of the second one, and prefixes the build
    directory.  This file embeds that callback and the [map] around it and
    proves the properties the specification states about them. *)

From Stdlib Require Import List NArith ZArith Bool Ascii String Lia.
Import ListNotations.

Local Open Scope N_scope.
Local Open Scope list_scope.

(** ** JavaScript strings

    A JavaScript string is a sequence of 16-bit code units; the regular
    expressions of the source have no [u] flag, so they work on code units. *)

Definition code_unit := N.
Definition jsstring := list code_unit.

(** A string literal of the source, as the code units of its characters
    (all literals of the source are ASCII). *)
Definition lit (s : string) : jsstring :=
  map N_of_ascii (list_ascii_of_string s).
Arguments lit s%_string.

Module Char.

Definition slash : code_unit := 47.      (* '/' *)
Definition dot : code_unit := 46.        (* '.' *)
Definition hyphen : code_unit := 45.     (* '-' *)
Definition underscore : code_unit := 95. (* '_' *)

(** [\w] without the [i] and [u] flags: [[A-Za-z0-9_]]. *)
Definition is_word (c : code_unit) : bool :=
  ((48 <=? c) && (c <=? 57))
  || ((65 <=? c) && (c <=? 90))
  || ((97 <=? c) && (c <=? 122))
  || (c =? underscore).

(** The class [[\w\-\.]]. *)
Definition is_segment (c : code_unit) : bool :=
  is_word c || (c =? hyphen) || (c =? dot).

(** The code units [.] refuses without the [s] flag: LF, CR, U+2028 and
    U+2029. *)
Definition is_line_terminator (c : code_unit) : bool :=
  (c =? 10) || (c =? 13) || (c =? 8232) || (c =? 8233).

End Char.

Module JS.

(** [a === b] on strings. *)
Fixpoint eqb (a b : jsstring) : bool :=
  match a, b with
  | [], [] => true
  | x :: a', y :: b' => (x =? y) && eqb a' b'
  | _, _ => false
  end.

(** [s.startsWith(p)]. *)
Fixpoint startsWith (s p : jsstring) : bool :=
  match p, s with
  | [], _ => true
  | x :: p', y :: s' => (x =? y) && startsWith s' p'
  | _ :: _, [] => false
  end.

(** [s.endsWith(p)]. *)
Definition endsWith (s p : jsstring) : bool :=
  startsWith (rev s) (rev p).

(** [s.indexOf(c)] for a pattern of one code unit: the first index where
    it occurs, [-1] when it does not. *)
Fixpoint indexOf (s : jsstring) (c : code_unit) : Z :=
  match s with
  | [] => (-1)%Z
  | x :: s' =>
      if x =? c then 0%Z
      else let i := indexOf s' c in
           if (i =? -1)%Z then (-1)%Z else (i + 1)%Z
  end.

(** [s.replace(pat, rep)] when [pat] is a string: the first occurrence of
    the text [pat] is replaced, nothing of [pat] is read as a pattern. *)
Fixpoint replace_string (s pat rep : jsstring) : jsstring :=
  if startsWith s pat then rep ++ skipn (List.length pat) s
  else match s with
       | [] => []
       | x :: s' => x :: replace_string s' pat rep
       end.

(** [\w+$] at the current position. *)
Fixpoint word_run_to_end (s : jsstring) : bool :=
  match s with
  | [] => false
  | [x] => Char.is_word x
  | x :: s' => Char.is_word x && word_run_to_end s'
  end.

(** [s.replace(/\.\w+$/, '')]: the leftmost position where a dot is
    followed by one or more word characters up to the end of the string;
    the string is cut there, and returned as it is when no position
    matches. *)
Fixpoint replace_extension (s : jsstring) : jsstring :=
  match s with
  | [] => []
  | x :: s' =>
      if (x =? Char.dot) && word_run_to_end s' then []
      else x :: replace_extension s'
  end.

End JS.

(** ** The regular expression of the slug *)

(** [[\w\-\.]*\/?$]: the greedy run of segment characters, then an optional
    slash, then the end of the input (there is no [m] flag). *)
Fixpoint segment_rest (s : jsstring) : bool :=
  match s with
  | [] => true
  | x :: s' =>
      if Char.is_segment x then segment_rest s'
      else (x =? Char.slash) && match s' with [] => true | _ => false end
  end.

(** [\w[\w\-\.]*\/?$], the second group up to the end of the input. *)
Definition segment_to_end (s : jsstring) : bool :=
  match s with
  | [] => false
  | x :: s' => Char.is_word x && segment_rest s'
  end.

(** [/^(.*?)(\w[\w\-\.]*\/?)$/.exec(s)]: the lazy first group grows one code
    unit at a time, and only over code units [.] accepts; the first length
    at which the rest is a segment wins.  [None] is the [null] of [exec];
    [Some (p1, p2)] stands for the match array with [path[1] = p1] and
    [path[2] = p2]. *)
Fixpoint exec_slug (s : jsstring) : option (jsstring * jsstring) :=
  if segment_to_end s then Some ([], s)
  else match s with
       | [] => None
       | x :: s' =>
           if Char.is_line_terminator x then None
           else match exec_slug s' with
                | Some (p1, p2) => Some (x :: p1, p2)
                | None => None
                end
       end.

(** ** The callback of [data.map] *)

(** What a call evaluates to: a value, or the [Error] it throws, with its
    message. *)
Inductive outcome (A : Type) : Type :=
| Returns (a : A)
| Throws (message : jsstring).
Arguments Returns {A} a.
Arguments Throws {A} message.

Definition index_html : jsstring := lit "index.html".

(** [`Incorrect slug: ${value.slug}`]. *)
Definition incorrect_slug (s : jsstring) : jsstring :=
  lit "Incorrect slug: " ++ s.

(** The value of [path[1]] after the branches of the callback have
    appended to it. *)
Definition append_index (p1 p2 : jsstring) : jsstring :=
  if (JS.indexOf p2 Char.dot =? -1)%Z then
    p1 ++ (if JS.endsWith p2 (lit "/")
           then p2 ++ lit "index.html"
           else p2 ++ lit "/index.html")
  else if negb (JS.eqb p2 index_html) then
    p1 ++ (JS.replace_extension p2 ++ lit "/index.html")
  else
    p1 ++ lit "index.html".

(** The callback up to its [return]: the final [path[1]], or the error
    thrown for a slug the expression does not match.  The statement
    [value.slug.replace('^/', '')] builds a string that nothing receives
    ([_stripped] below); the slug itself is what the expression is run
    on.  The test [path && path[2]] is the two matches. *)
Definition resolve_path (slug : jsstring) : outcome jsstring :=
  let _stripped :=
    if JS.startsWith slug (lit "/")
    then JS.replace_string slug (lit "^/") []
    else slug in
  match exec_slug slug with
  | Some (p1, p2) =>
      match p2 with
      | _ :: _ => Returns (append_index p1 p2)
      | [] => Throws (incorrect_slug slug)
      end
  | None => Throws (incorrect_slug slug)
  end.

Section Templates.

(** [__dirname] and [BUILD_DIR = path.join(__dirname, 'dist')] come from
    Node; the context of a record is an arbitrary YAML value. *)
Variables (dirname BUILD_DIR : jsstring).
Variable Context_ : Type.

(** A record of [data.yaml]. *)
Record descriptor : Type := Descriptor {
  slug : jsstring;
  template : jsstring;
  context : Context_
}.

(** The object the callback returns; [to_context] is its [context]. *)
Record mapping : Type := Mapping {
  from : jsstring;
  to : jsstring;
  to_context : Context_
}.

(** [`${BUILD_DIR}/${path[1]}`] for a slug on its own. *)
Definition resolve (s : jsstring) : outcome jsstring :=
  match resolve_path s with
  | Returns p => Returns (BUILD_DIR ++ lit "/" ++ p)
  | Throws m => Throws m
  end.

(** The callback of [data.map]. *)
Definition template_of (value : descriptor) : outcome mapping :=
  match resolve_path (slug value) with
  | Returns p =>
      Returns {| from := dirname ++ lit "/" ++ template value;
                 to := BUILD_DIR ++ lit "/" ++ p;
                 to_context := context value |}
  | Throws m => Throws m
  end.

(** [data.map(callback)]: the records are visited from the first one on,
    and an error thrown by the callback leaves [map], so that no array is
    produced. *)
Fixpoint templates (data : list descriptor) : outcome (list mapping) :=
  match data with
  | [] => Returns []
  | value :: rest =>
      match template_of value with
      | Throws m => Throws m
      | Returns t =>
          match templates rest with
          | Throws m => Throws m
          | Returns ts => Returns (t :: ts)
          end
      end
  end.

End Templates.

Arguments slug {Context_} d.
Arguments template {Context_} d.
Arguments context {Context_} d.
Arguments from {Context_} m.
Arguments to {Context_} m.
Arguments to_context {Context_} m.
Arguments Descriptor {Context_} slug template context.
Arguments Mapping {Context_} from to to_context.
Arguments template_of dirname BUILD_DIR {Context_} value.
Arguments templates dirname BUILD_DIR {Context_} data.

(** A path notion of the specification, not of the source: the text after
    the last slash of a path (the whole path when it has no slash). *)
Definition final_segment (path : jsstring) : jsstring :=
  fold_left (fun seg c => if c =? Char.slash then [] else seg ++ [c]) path [].

(** No code unit of [s] is a line terminator: [.*] can run over [s]. *)
Definition dot_star (s : jsstring) : bool :=
  forallb (fun c => negb (Char.is_line_terminator c)) s.

(** Follows the specification's words, for comparison with
    [JS.replace_extension]: the segment without "the text from the last dot
    to the end"; a segment without a dot is left as it is. *)
Fixpoint strip_from_last_dot (s : jsstring) : jsstring :=
  match s with
  | [] => []
  | x :: s' =>
      if (x =? Char.dot) && (JS.indexOf s' Char.dot =? -1)%Z then []
      else x :: strip_from_last_dot s'
  end.

(** ** The configuration function

    [module.exports] builds the configuration object of webpack.  Its
    values are kept as the source writes them: literals, arrays, objects
    with their properties in order, objects built with [new], and values
    of other modules, which are named and not looked into. *)

(** The arrays [sassConfig] and [plugins] are written to after the
    configuration object has taken them: an object that holds one of them
    holds its name, and its items are read in the store. *)
Inductive array_name : Type := SassConfig | Plugins.

#[local] Set Warnings "-register-all".

Inductive value : Type :=
| Undefined
| Bool (b : bool)
| Num (n : Z)
| Str (s : jsstring)
| RegExp (source : jsstring)
| Arr (items : list value)
| Obj (props : list (jsstring * value))
| Fun (result : value)                      (* function () { return result } *)
| New (class : jsstring) (args : list value) (* new class(args) *)
| Extern (expression : jsstring)            (* a value of another module *)
| Shared (a : array_name).

(** The store of a call: the two arrays, and the values whose JSON text
    [console.log] has written, the first one first. *)
Record store : Type := Store {
  sassConfig : list value;
  plugins : list value;
  console : list value
}.

(** The items of an array of the store. *)
Definition items_of (h : store) (a : array_name) : list value :=
  match a with
  | SassConfig => sassConfig h
  | Plugins => plugins h
  end.

(** [a.unshift(x)]. *)
Definition unshift (a : array_name) (x : value) (h : store) : store :=
  match a with
  | SassConfig => Store (x :: sassConfig h) (plugins h) (console h)
  | Plugins => Store (sassConfig h) (x :: plugins h) (console h)
  end.

(** [a.push(x)]. *)
Definition push (a : array_name) (x : value) (h : store) : store :=
  match a with
  | SassConfig => Store (sassConfig h ++ [x]) (plugins h) (console h)
  | Plugins => Store (sassConfig h) (plugins h ++ [x]) (console h)
  end.

(** [console.log(JSON.stringify(x))]. *)
Definition console_log_json (x : value) (h : store) : store :=
  Store (sassConfig h) (plugins h) (console h ++ [x]).

(** The property [k] in a list of properties; [undefined] when there is
    none. *)
Fixpoint lookup (k : jsstring) (props : list (jsstring * value)) : value :=
  match props with
  | [] => Undefined
  | (k', v) :: rest => if JS.eqb k' k then v else lookup k rest
  end.

(** [o.k] for an object [o]. *)
Definition get (o : value) (k : jsstring) : value :=
  match o with
  | Obj props => lookup k props
  | _ => Undefined
  end.

(** [a[i]] for an array [a]. *)
Definition item (a : value) (i : nat) : value :=
  match a with
  | Arr items => nth i items Undefined
  | _ => Undefined
  end.


(** [{...props, k: v}]: the properties in their order, [k] set where it
    stands, or added behind them. *)
Fixpoint define (k : jsstring) (v : value) (props : list (jsstring * value))
  : list (jsstring * value) :=
  match props with
  | [] => [(k, v)]
  | (k', v') :: rest =>
      if JS.eqb k' k then (k, v) :: rest else (k', v') :: define k v rest
  end.

(** The array a value stands for when it is read with the store [h]. *)
Definition read (h : store) (v : value) : value :=
  match v with
  | Shared a => Arr (items_of h a)
  | _ => v
  end.

(** What [dotenv.config] returns: [{ parsed }], an object of strings read
    through its properties, or [{ error }], an error with its message. *)
Inductive dotenv_result : Type :=
| Parsed (parsed : jsstring -> option jsstring)
| Failed (error : jsstring).

(** [`${argv.mode}`]. *)
Definition mode_text (mode : option jsstring) : jsstring :=
  match mode with
  | Some m => m
  | None => lit "undefined"
  end.

(** [argv.mode !== 'production']. *)
Definition not_production (mode : option jsstring) : bool :=
  match mode with
  | Some m => negb (JS.eqb m (lit "production"))
  | None => true
  end.

(** The test of [if (x)] for a variable of the environment: it is set and
    not empty. *)
Definition truthy (x : option jsstring) : bool :=
  match x with
  | Some (_ :: _) => true
  | _ => false
  end.

(** An element of [templates] as a value. *)
Definition mapping_value (m : mapping value) : value :=
  Obj [(lit "from", Str (from m));
       (lit "to", Str (to m));
       (lit "context", to_context m)].

Section Exports.

(** What the function takes from Node and from the libraries:
    [__dirname], [BUILD_DIR], [path.join], [path.resolve],
    [dotenv.config] as a function of the path it is given,
    [process.env.WEBPACK_DEV_SERVER] as it is when the function tests it,
    [require('os').cpus().length], and the array [templates] of the
    module. *)
Variables (dirname BUILD_DIR : jsstring).
Variable path_join : jsstring -> jsstring -> jsstring.
Variable path_resolve : list jsstring -> jsstring.
Variable dotenv_config : jsstring -> dotenv_result.
Variable WEBPACK_DEV_SERVER : option jsstring.
Variable cpus_length : Z.
Variable templates_array : list (mapping value).

(** [const sassConfig = [...]]. *)
Definition sassConfig_literal : list value :=
  [Str (lit "css-loader");
   Obj [(lit "loader", Str (lit "postcss-loader"));
        (lit "options",
         Obj [(lit "plugins",
               Fun (Arr [Extern (lit "require('precss')");
                         Extern (lit "require('autoprefixer')")]))])];
   Str (lit "sass-loader")].

(** [const plugins = [...]]. *)
Definition plugins_literal : list value :=
  [New (lit "NunjucksWebpackPlugin")
     [Obj [(lit "templates", Arr (List.map mapping_value templates_array));
           (lit "configure",
            Obj [(lit "autoescape", Bool true);
                 (lit "throwOnUndefined", Bool false);
                 (lit "trimBlocks", Bool true);
                 (lit "watch", Bool false);
                 (lit "noCache", Bool true)])]];
   New (lit "HappyPack")
     [Obj [(lit "id", Str (lit "ts"));
           (lit "threads", Num 4);
           (lit "loaders",
            Arr [Obj [(lit "path", Str (lit "ts-loader"));
                      (lit "query", Obj [(lit "happyPackMode", Bool true)])]])]];
   New (lit "ForkTsCheckerWebpackPlugin")
     [Obj [(lit "tsconfig",
            Str (path_resolve [dirname; lit "./tsconfig.json"]));
           (lit "checkSyntacticErrors", Bool true)]];
   New (lit "CleanWebpackPlugin") [];
   New (lit "WebpackManifestPlugin") [];
   New (lit "CaseSensitivePathsPlugin") [];
   New (lit "WatchMissingNodeModulesPlugin")
     [Str (path_resolve [lit "node_modules"])];
   New (lit "BundleAnalyzerPlugin")
     [Obj [(lit "analyzerMode", Str (lit "disabled"));
           (lit "openAnalyzer", Bool false);
           (lit "generateStatsFile", Bool true)]]].

(** [let config = {...}], with the two arrays by name. *)
Definition config_literal : list (jsstring * value) :=
  [(lit "entry",
    Obj [(lit "index",
          Arr [Str (lit "./assets/ts/index.ts");
               Str (lit "./assets/scss/styles.scss")])]);
   (lit "output",
    Obj [(lit "filename", Str (lit "[name].[hash].js?"));
         (lit "path", Str BUILD_DIR)]);
   (lit "context", Str dirname);
   (lit "module",
    Obj [(lit "rules",
          Arr [Obj [(lit "test", RegExp (lit "\.js$"));
                    (lit "exclude", RegExp (lit "node_modules"));
                    (lit "loader", Str (lit "babel-loader"))];
               Obj [(lit "test", RegExp (lit "\.ts$"));
                    (lit "exclude", RegExp (lit "node_modules"));
                    (lit "use",
                     Arr [Obj [(lit "loader", Str (lit "cache-loader"))];
                          Obj [(lit "loader", Str (lit "thread-loader"));
                               (lit "options",
                                Obj [(lit "workers",
                                      Num (cpus_length - 1))])];
                          Obj [(lit "loader", Str (lit "ts-loader"));
                               (lit "options",
                                Obj [(lit "happyPackMode", Bool true)])];
                          Str (lit "eslint-loader")])];
               Obj [(lit "test", RegExp (lit "\.scss$"));
                    (lit "use", Shared SassConfig)]])]);
   (lit "plugins", Shared Plugins)].

(** The object of [devServer]. *)
Definition devServer_literal (parsed : jsstring -> option jsstring) : value :=
  Obj [(lit "contentBase", Str dirname);
       (lit "compress", Bool true);
       (lit "port",
        match parsed (lit "SERVER_PORT") with
        | Some port => Str port
        | None => Undefined
        end);
       (lit "host", Str (lit "localhost"));
       (lit "hot", Bool true);
       (lit "writeToDisk", Bool true);
       (lit "inline", Bool true)].

(** The loader that is put in front of [sassConfig] without the
    development server. *)
Definition extract_loader : value :=
  Obj [(lit "loader", Extern (lit "MiniCssExtractPlugin.loader"));
       (lit "options",
        Obj [(lit "publicPath", Str (lit "/assets/css/"));
             (lit "esModule", Bool true);
             (lit "hmr", Bool true)])].

(** The plugin that is put behind [plugins] without the development
    server. *)
Definition extract_plugin : value :=
  New (lit "MiniCssExtractPlugin")
    [Obj [(lit "filename", Str (lit "[name].[hash].css"));
          (lit "chunkFilename", Str (lit "[id].css"))]].

(** [module.exports = function (_, argv) {...}], for [argv.mode] a string
    or [undefined] ([None]): the object it returns and the store it
    leaves, or the error of [dotenv] it throws. *)
Definition exports (mode : option jsstring) : outcome (value * store) :=
  match dotenv_config
          (path_join dirname (lit "." ++ mode_text mode ++ lit ".env")) with
  | Failed error => Throws error
  | Parsed parsed =>
      let h := Store sassConfig_literal plugins_literal [] in
      let config := config_literal in
      let config :=
        if not_production mode then
          define (lit "devtool") (Str (lit "source-map")) config
        else
          define (lit "optimization")
            (Obj [(lit "minimize", Bool true);
                  (lit "minimizer",
                   Arr [New (lit "TerserPlugin") [];
                        New (lit "OptimizeCSSAssetsPlugin") []])])
            config in
      if truthy WEBPACK_DEV_SERVER then
        let config :=
          define (lit "devServer") (devServer_literal parsed) config in
        let h := unshift SassConfig (Str (lit "style-loader")) h in
        let h := console_log_json (get (Obj config) (lit "devServer")) h in
        Returns (Obj config, h)
      else
        let h := unshift SassConfig extract_loader h in
        let h := push Plugins extract_plugin h in
        Returns (Obj config, h)
  end.

End Exports.

(** The module as it loads: [templates] is computed from the records
    first, and the function exists only when that has returned. *)
Definition load_module (dirname BUILD_DIR : jsstring)
    (path_join : jsstring -> jsstring -> jsstring)
    (path_resolve : list jsstring -> jsstring)
    (dotenv_config : jsstring -> dotenv_result)
    (WEBPACK_DEV_SERVER : option jsstring) (cpus_length : Z)
    (data : list (descriptor value))
  : outcome (option jsstring -> outcome (value * store)) :=
  match templates dirname BUILD_DIR data with
  | Throws m => Throws m
  | Returns ts =>
      Returns (exports dirname BUILD_DIR path_join path_resolve dotenv_config
                 WEBPACK_DEV_SERVER cpus_length ts)
  end.

(** * Properties *)

(** ** Code units *)

Ltac char_facts :=
  unfold Char.is_segment, Char.is_word, Char.is_line_terminator,
    Char.slash, Char.dot, Char.hyphen, Char.underscore in *;
  repeat match goal with
    | H : _ && _ = true |- _ => apply andb_true_iff in H; destruct H
    | H : _ || _ = true |- _ => apply orb_true_iff in H; destruct H
    | H : _ || _ = false |- _ => apply orb_false_iff in H; destruct H
    | H : (_ =? _) = true |- _ => apply N.eqb_eq in H
    | H : (_ =? _) = false |- _ => apply N.eqb_neq in H
    | H : (_ <=? _) = true |- _ => apply N.leb_le in H
    | H : (_ <=? _) = false |- _ => apply N.leb_gt in H
    end.

Lemma word_is_segment c : Char.is_word c = true -> Char.is_segment c = true.
Proof. intros H. unfold Char.is_segment. rewrite H. reflexivity. Qed.

Lemma segment_not_slash c :
  Char.is_segment c = true -> (c =? Char.slash) = false.
Proof.
  intros H. apply N.eqb_neq. intros E. char_facts; lia.
Qed.

Lemma segment_not_line_terminator c :
  Char.is_segment c = true -> Char.is_line_terminator c = false.
Proof.
  intros H.
  destruct (Char.is_line_terminator c) eqn:E; [|reflexivity].
  exfalso. char_facts; lia.
Qed.

Lemma word_not_dot c : Char.is_word c = true -> (c =? Char.dot) = false.
Proof.
  intros H. apply N.eqb_neq. intros E. char_facts; lia.
Qed.

(** ** Strings *)

Lemma eqb_eq a b : JS.eqb a b = true <-> a = b.
Proof.
  revert b. induction a as [|x a IH]; intros [|y b]; simpl; split;
    try congruence; try reflexivity.
  - intros H. apply andb_true_iff in H. destruct H as [H1 H2].
    apply N.eqb_eq in H1. apply IH in H2. congruence.
  - intros H. injection H as -> ->. rewrite N.eqb_refl. simpl.
    apply IH. reflexivity.
Qed.

Lemma startsWith_nil s : JS.startsWith s [] = true.
Proof. destruct s; reflexivity. Qed.

Lemma startsWith_app p r : JS.startsWith (p ++ r) p = true.
Proof.
  induction p as [|x p IH]; simpl.
  - destruct r; reflexivity.
  - rewrite N.eqb_refl. exact IH.
Qed.

Lemma endsWith_app r p : JS.endsWith (r ++ p) p = true.
Proof. unfold JS.endsWith. rewrite rev_app_distr. apply startsWith_app. Qed.

Lemma endsWith_slash_last s x :
  JS.endsWith (s ++ [x]) (lit "/") = (x =? Char.slash).
Proof.
  unfold JS.endsWith. rewrite rev_app_distr.
  change (rev [x] ++ rev s) with (x :: rev s).
  change (rev (lit "/")) with [Char.slash].
  cbn [JS.startsWith]. rewrite N.eqb_sym.
  destruct (rev s); apply andb_true_r.
Qed.

Lemma indexOf_absent s c : JS.indexOf s c = (-1)%Z <-> ~ In c s.
Proof.
  assert (G : forall t, (-1 <= JS.indexOf t c)%Z).
  { induction t as [|y t IHt]; simpl; [lia|].
    destruct (y =? c); [lia|].
    destruct (JS.indexOf t c =? -1)%Z; lia. }
  induction s as [|x s IH]; simpl.
  - tauto.
  - destruct (x =? c) eqn:E.
    + apply N.eqb_eq in E. split; [lia | intros H; exfalso; apply H; auto].
    + apply N.eqb_neq in E.
      destruct (JS.indexOf s c =? -1)%Z eqn:E2.
      * apply Z.eqb_eq in E2. split; [|reflexivity].
        intros _ [H|H]; [congruence | apply IH in H; auto].
      * apply Z.eqb_neq in E2. specialize (G s). split; [lia|].
        intros H. exfalso. apply E2, IH. intros HI. apply H. auto.
Qed.

(** ** The shape of a segment *)

Lemma segment_rest_shape s :
  segment_rest s = true ->
  exists body,
    forallb Char.is_segment body = true
    /\ (s = body \/ s = body ++ [Char.slash]).
Proof.
  induction s as [|x s IH]; simpl.
  - intros _. exists []. auto.
  - destruct (Char.is_segment x) eqn:E.
    + intros H. destruct (IH H) as (body & Hb & [-> | ->]);
        exists (x :: body); simpl; rewrite E, Hb; auto.
    + intros H. apply andb_true_iff in H. destruct H as [H1 H2].
      apply N.eqb_eq in H1. destruct s; [|discriminate].
      exists []. subst x. auto.
Qed.

Lemma segment_rest_body body :
  forallb Char.is_segment body = true ->
  segment_rest body = true /\ segment_rest (body ++ [Char.slash]) = true.
Proof.
  induction body as [|x body IH]; simpl.
  - auto.
  - intros H. apply andb_true_iff in H. destruct H as [H1 H2].
    rewrite H1. auto.
Qed.

(** A segment is a word character and a run of segment characters, with or
    without one slash behind them. *)
Lemma segment_to_end_shape s :
  segment_to_end s = true ->
  exists dir,
    dir <> [] /\ forallb Char.is_segment dir = true
    /\ (s = dir \/ s = dir ++ [Char.slash]).
Proof.
  destruct s as [|x s]; simpl; [discriminate|].
  intros H. apply andb_true_iff in H. destruct H as [H1 H2].
  destruct (segment_rest_shape s H2) as (body & Hb & Hs).
  exists (x :: body). simpl. rewrite (word_is_segment x H1), Hb.
  repeat split; [discriminate|]. destruct Hs as [-> | ->]; auto.
Qed.

Lemma segment_chars_dot_star s :
  forallb Char.is_segment s = true -> dot_star s = true.
Proof.
  induction s as [|x s IH]; simpl; [reflexivity|].
  intros H. apply andb_true_iff in H. destruct H as [H1 H2].
  rewrite (segment_not_line_terminator x H1). simpl. auto.
Qed.

Lemma dot_star_app a b : dot_star (a ++ b) = dot_star a && dot_star b.
Proof. apply forallb_app. Qed.

Lemma segment_dot_star s : segment_to_end s = true -> dot_star s = true.
Proof.
  intros H. destruct (segment_to_end_shape s H) as (dir & _ & Hd & [-> | ->]).
  - apply segment_chars_dot_star, Hd.
  - rewrite dot_star_app, (segment_chars_dot_star dir Hd). reflexivity.
Qed.

(** A slash with something behind it is in no segment. *)
Lemma segment_rest_slash_inside a b :
  b <> [] -> segment_rest (a ++ Char.slash :: b) = false.
Proof.
  intros Hb. induction a as [|x a IH]; simpl.
  - destruct b; [contradiction | reflexivity].
  - destruct (Char.is_segment x); [exact IH|].
    destruct (a ++ Char.slash :: b) eqn:E; [|apply andb_false_r].
    destruct a; discriminate.
Qed.

Lemma segment_to_end_slash_inside a b :
  b <> [] -> segment_to_end (a ++ Char.slash :: b) = false.
Proof.
  intros Hb. destruct a as [|x a]; simpl.
  - reflexivity.
  - rewrite (segment_rest_slash_inside a b Hb). apply andb_false_r.
Qed.

(** ** What [exec] finds *)

Lemma exec_slug_unfold s :
  exec_slug s =
  if segment_to_end s then Some ([], s)
  else match s with
       | [] => None
       | x :: s' =>
           if Char.is_line_terminator x then None
           else match exec_slug s' with
                | Some (p1, p2) => Some (x :: p1, p2)
                | None => None
                end
       end.
Proof. destruct s; reflexivity. Qed.

(** The two groups split the slug; the first one holds no line terminator
    and the second one is a segment. *)
Lemma exec_slug_sound s p1 p2 :
  exec_slug s = Some (p1, p2) ->
  s = p1 ++ p2 /\ dot_star p1 = true /\ segment_to_end p2 = true.
Proof.
  revert p1 p2. induction s as [|x s IH]; intros p1 p2;
    rewrite exec_slug_unfold.
  - simpl. discriminate.
  - destruct (segment_to_end (x :: s)) eqn:E.
    + intros H. injection H as <- <-. auto.
    + destruct (Char.is_line_terminator x) eqn:L; [discriminate|].
      destruct (exec_slug s) as [[q1 q2]|]; [|discriminate].
      intros H. injection H as <- <-.
      destruct (IH q1 q2 eq_refl) as (-> & H1 & H2).
      simpl. rewrite L, H1. auto.
Qed.

(** The second group is the longest suffix of the slug that is a
    segment. *)
Lemma exec_slug_longest s p1 p2 :
  exec_slug s = Some (p1, p2) ->
  forall q1 q2, s = q1 ++ q2 -> segment_to_end q2 = true ->
  (List.length q2 <= List.length p2)%nat.
Proof.
  revert p1 p2. induction s as [|x s IH]; intros p1 p2;
    rewrite exec_slug_unfold.
  - simpl. discriminate.
  - destruct (segment_to_end (x :: s)) eqn:E.
    + intros H q1 q2 Hs _. injection H as <- <-.
      rewrite Hs, length_app. lia.
    + destruct (Char.is_line_terminator x); [discriminate|].
      destruct (exec_slug s) as [[r1 r2]|] eqn:R; [|discriminate].
      intros H q1 q2 Hs Hq. injection H as <- <-.
      destruct q1 as [|y q1]; simpl in Hs.
      * subst q2. congruence.
      * injection Hs as _ Hs. exact (IH r1 r2 eq_refl q1 q2 Hs Hq).
Qed.

(** [exec] matches as soon as the slug has a segment behind a prefix that
    [.*] accepts. *)
Lemma exec_slug_defined p1 p2 :
  dot_star p1 = true -> segment_to_end p2 = true ->
  exists q1 q2, exec_slug (p1 ++ p2) = Some (q1, q2).
Proof.
  intros H1 H2. induction p1 as [|x p1 IH]; rewrite exec_slug_unfold.
  - simpl. rewrite H2. eauto.
  - simpl in H1. apply andb_true_iff in H1. destruct H1 as [Hx H1].
    apply negb_true_iff in Hx.
    destruct (segment_to_end ((x :: p1) ++ p2)); [eauto|].
    simpl. rewrite Hx. destruct (IH H1) as (q1 & q2 & ->). eauto.
Qed.

(** The longest segment suffix behind such a prefix is what [exec]
    returns. *)
Lemma exec_slug_complete p1 p2 :
  dot_star p1 = true -> segment_to_end p2 = true ->
  (forall q1 q2, p1 ++ p2 = q1 ++ q2 -> segment_to_end q2 = true ->
                 (List.length q2 <= List.length p2)%nat) ->
  exec_slug (p1 ++ p2) = Some (p1, p2).
Proof.
  intros H1 H2. induction p1 as [|x p1 IH]; intros Hl;
    rewrite exec_slug_unfold.
  - simpl. rewrite H2. reflexivity.
  - simpl in H1. apply andb_true_iff in H1. destruct H1 as [Hx H1].
    apply negb_true_iff in Hx.
    destruct (segment_to_end ((x :: p1) ++ p2)) eqn:E.
    + specialize (Hl [] ((x :: p1) ++ p2) eq_refl E).
      simpl in Hl. rewrite length_app in Hl. lia.
    + simpl. rewrite Hx, IH; [reflexivity | exact H1 |].
      intros q1 q2 Hs. apply (Hl (x :: q1) q2). simpl. rewrite Hs.
      reflexivity.
Qed.

Lemma exec_slug_null s :
  exec_slug s = None <->
  ~ exists p1 p2,
      s = p1 ++ p2 /\ dot_star p1 = true /\ segment_to_end p2 = true.
Proof.
  split.
  - intros H (p1 & p2 & -> & H1 & H2).
    destruct (exec_slug_defined p1 p2 H1 H2) as (q1 & q2 & E). congruence.
  - intros H. destruct (exec_slug s) as [[p1 p2]|] eqn:E; [|reflexivity].
    exfalso. apply H. exists p1, p2. apply exec_slug_sound, E.
Qed.

(** ** The branches of the callback *)

Lemma resolve_path_matched s p1 p2 :
  exec_slug s = Some (p1, p2) ->
  resolve_path s = Returns (append_index p1 p2).
Proof.
  intros E. unfold resolve_path. rewrite E.
  destruct (exec_slug_sound s p1 p2 E) as (_ & _ & H).
  destruct p2; [discriminate | reflexivity].
Qed.

Lemma resolve_path_returns s d :
  resolve_path s = Returns d ->
  exists p1 p2, exec_slug s = Some (p1, p2) /\ d = append_index p1 p2.
Proof.
  unfold resolve_path. destruct (exec_slug s) as [[p1 p2]|]; [|discriminate].
  destruct p2; [discriminate|]. intros H. injection H as <-. eauto.
Qed.

Lemma resolve_path_throws s m :
  resolve_path s = Throws m ->
  exec_slug s = None /\ m = incorrect_slug s.
Proof.
  destruct (exec_slug s) as [[p1 p2]|] eqn:E.
  - rewrite (resolve_path_matched s p1 p2 E). discriminate.
  - unfold resolve_path. rewrite E. intros H. injection H as <-. auto.
Qed.

Lemma resolve_path_null s :
  exec_slug s = None -> resolve_path s = Throws (incorrect_slug s).
Proof. intros E. unfold resolve_path. rewrite E. reflexivity. Qed.

Lemma segment_chars_no_slash_end dir :
  dir <> [] -> forallb Char.is_segment dir = true ->
  JS.endsWith dir (lit "/") = false.
Proof.
  intros Hn Hd. destruct (exists_last Hn) as (d & x & ->).
  rewrite endsWith_slash_last. apply segment_not_slash.
  rewrite forallb_app in Hd. apply andb_true_iff in Hd.
  destruct Hd as [_ Hx]. simpl in Hx. rewrite andb_true_r in Hx. exact Hx.
Qed.

(** First branch: a second group without a dot. *)
Lemma append_index_no_dot p1 p2 :
  segment_to_end p2 = true -> JS.indexOf p2 Char.dot = (-1)%Z ->
  exists dir,
    dir <> [] /\ forallb Char.is_segment dir = true
    /\ JS.endsWith dir (lit "/") = false
    /\ (p2 = dir \/ p2 = dir ++ lit "/")
    /\ append_index p1 p2 = p1 ++ dir ++ lit "/index.html".
Proof.
  intros Hs Hd. destruct (segment_to_end_shape p2 Hs) as (dir & Hn & Hc & Hp).
  exists dir. pose proof (segment_chars_no_slash_end dir Hn Hc) as He.
  repeat split; try assumption.
  unfold append_index. rewrite Hd. simpl (_ =? _)%Z. cbv iota.
  destruct Hp as [-> | ->].
  - rewrite He. reflexivity.
  - change [Char.slash] with (lit "/"). rewrite endsWith_app.
    rewrite <- (app_assoc dir). reflexivity.
Qed.

Lemma word_run_to_end_iff s :
  JS.word_run_to_end s = true <-> s <> [] /\ forallb Char.is_word s = true.
Proof.
  induction s as [|x s IH].
  - simpl. split; [discriminate | intros [H _]; contradiction].
  - destruct s as [|y s].
    + simpl. rewrite andb_true_r. split; [|tauto].
      intros H. split; [discriminate | exact H].
    + change (JS.word_run_to_end (x :: y :: s))
        with (Char.is_word x && JS.word_run_to_end (y :: s)).
      change (forallb Char.is_word (x :: y :: s))
        with (Char.is_word x && forallb Char.is_word (y :: s)).
      rewrite !andb_true_iff, IH. split.
      * intros (H1 & _ & H2). split; [discriminate | auto].
      * intros (_ & H1 & H2). repeat split; [exact H1 | discriminate | exact H2].
Qed.

Lemma word_run_to_end_dot a b :
  JS.word_run_to_end (a ++ Char.dot :: b) = false.
Proof.
  destruct (JS.word_run_to_end (a ++ Char.dot :: b)) eqn:E; [|reflexivity].
  apply word_run_to_end_iff in E. destruct E as [_ E].
  rewrite forallb_app in E. apply andb_true_iff in E. destruct E as [_ E].
  simpl in E. discriminate.
Qed.

(** Second branch: [/\.\w+$/] cuts at a dot followed by word characters up
    to the end, whatever stands before that dot. *)
Lemma replace_extension_cut base ext :
  ext <> [] -> forallb Char.is_word ext = true ->
  JS.replace_extension (base ++ Char.dot :: ext) = base.
Proof.
  intros Hn Hw.
  assert (Hr : JS.word_run_to_end ext = true)
    by (apply word_run_to_end_iff; auto).
  induction base as [|x base IH]; simpl.
  - rewrite Hr. reflexivity.
  - rewrite word_run_to_end_dot, andb_false_r, IH. reflexivity.
Qed.

Lemma replace_extension_dot_star s :
  dot_star s = true -> dot_star (JS.replace_extension s) = true.
Proof.
  induction s as [|x s IH]; simpl; [reflexivity|].
  intros H. apply andb_true_iff in H. destruct H as [H1 H2].
  destruct ((x =? Char.dot) && JS.word_run_to_end s); [reflexivity|].
  simpl. rewrite H1. simpl. auto.
Qed.

Lemma append_index_index_html p1 :
  append_index p1 index_html = p1 ++ index_html.
Proof. reflexivity. Qed.

(** Whatever the branch, [path[1]] ends up as [index.html] behind a slash,
    or as the slug itself when its second group is [index.html]. *)
Lemma append_index_cases p1 p2 :
  segment_to_end p2 = true ->
  (p2 = index_html /\ append_index p1 p2 = p1 ++ index_html)
  \/ (exists q, dot_star q = true
                /\ append_index p1 p2 = p1 ++ q ++ lit "/index.html").
Proof.
  intros Hs. destruct (JS.indexOf p2 Char.dot =? -1)%Z eqn:Hd.
  - apply Z.eqb_eq in Hd.
    destruct (append_index_no_dot p1 p2 Hs Hd) as (dir & _ & Hc & _ & _ & E).
    right. exists dir. split; [apply segment_chars_dot_star, Hc | exact E].
  - destruct (JS.eqb p2 index_html) eqn:He.
    + apply eqb_eq in He. subst p2. left. split; reflexivity.
    + right. exists (JS.replace_extension p2). split.
      * apply replace_extension_dot_star, segment_dot_star, Hs.
      * unfold append_index. rewrite Hd, He. reflexivity.
Qed.

(** ** Resolving a resolved path *)

Lemma exec_slug_resolved q :
  dot_star q = true ->
  exec_slug (q ++ lit "/index.html") = Some (q ++ lit "/", index_html).
Proof.
  induction q as [|x q IH]; intros H.
  - reflexivity.
  - simpl in H. apply andb_true_iff in H. destruct H as [Hx H].
    apply negb_true_iff in Hx. rewrite exec_slug_unfold.
    change (lit "/index.html") with (Char.slash :: lit "index.html") at 1.
    rewrite segment_to_end_slash_inside by discriminate.
    simpl ((x :: q) ++ _). cbv iota. rewrite Hx.
    change (Char.slash :: lit "index.html") with (lit "/index.html").
    rewrite (IH H). reflexivity.
Qed.

Lemma resolve_path_fixed s d :
  resolve_path s = Returns d ->
  (exists pre, d = pre ++ index_html) /\ resolve_path d = Returns d.
Proof.
  intros H. destruct (resolve_path_returns s d H) as (p1 & p2 & E & ->).
  destruct (exec_slug_sound s p1 p2 E) as (Hs & H1 & H2).
  destruct (append_index_cases p1 p2 H2) as [[-> ->] | (q & Hq & ->)].
  - split; [eauto|]. rewrite Hs in H. exact H.
  - split.
    + exists (p1 ++ q ++ lit "/"). rewrite <- !app_assoc. reflexivity.
    + assert (Hpq : dot_star (p1 ++ q) = true)
        by (rewrite dot_star_app, H1, Hq; reflexivity).
      rewrite app_assoc.
      rewrite (resolve_path_matched _ _ _ (exec_slug_resolved _ Hpq)).
      rewrite append_index_index_html, <- !app_assoc. reflexivity.
Qed.

(** ** The destination under the build directory *)

Lemma resolve_of_path B s p :
  resolve_path s = Returns p -> resolve B s = Returns (B ++ lit "/" ++ p).
Proof. intros H. unfold resolve. rewrite H. reflexivity. Qed.

Lemma resolve_returns B s d :
  resolve B s = Returns d ->
  exists p, resolve_path s = Returns p /\ d = B ++ lit "/" ++ p.
Proof.
  unfold resolve. destruct (resolve_path s) as [p|m]; [|discriminate].
  intros H. injection H as <-. eauto.
Qed.

Lemma resolve_throws B s m :
  resolve B s = Throws m <-> resolve_path s = Throws m.
Proof.
  unfold resolve. destruct (resolve_path s); split; congruence.
Qed.

Lemma resolve_matched B s p1 p2 :
  exec_slug s = Some (p1, p2) ->
  resolve B s = Returns (B ++ lit "/" ++ append_index p1 p2).
Proof. intros E. apply resolve_of_path, resolve_path_matched, E. Qed.

Lemma final_segment_slash a b :
  final_segment (a ++ Char.slash :: b) = final_segment b.
Proof. unfold final_segment. rewrite fold_left_app. reflexivity. Qed.

Lemma final_segment_index_html pre :
  final_segment (pre ++ index_html) = final_segment pre ++ index_html.
Proof.
  unfold final_segment. rewrite fold_left_app. simpl.
  rewrite <- !app_assoc. reflexivity.
Qed.

Lemma startsWith_slash_app a b :
  JS.startsWith a (lit "/") = true -> JS.startsWith (a ++ b) (lit "/") = true.
Proof.
  destruct a as [|x a]; [discriminate|].
  change (JS.startsWith ((x :: a) ++ b) (lit "/"))
    with ((Char.slash =? x) && JS.startsWith (a ++ b) []).
  change (JS.startsWith (x :: a) (lit "/"))
    with ((Char.slash =? x) && JS.startsWith a []).
  rewrite !startsWith_nil. auto.
Qed.

(** ** A leading slash *)

Lemma exec_slug_slash s p1 p2 :
  exec_slug s = Some (p1, p2) ->
  exec_slug (Char.slash :: s) = Some (Char.slash :: p1, p2).
Proof.
  intros E. rewrite exec_slug_unfold. simpl. rewrite E. reflexivity.
Qed.

Lemma append_index_cons x p1 p2 :
  append_index (x :: p1) p2 = x :: append_index p1 p2.
Proof.
  unfold append_index.
  destruct (JS.indexOf p2 Char.dot =? -1)%Z; [reflexivity|].
  destruct (negb (JS.eqb p2 index_html)); reflexivity.
Qed.

(** The slash in front of a slug stays in front of its path: the first
    group of the expression takes it. *)
Lemma resolve_path_slash s p :
  resolve_path s = Returns p ->
  resolve_path (lit "/" ++ s) = Returns (lit "/" ++ p).
Proof.
  intros H. destruct (resolve_path_returns s p H) as (p1 & p2 & E & ->).
  change (lit "/" ++ s) with (Char.slash :: s).
  rewrite (resolve_path_matched _ _ _ (exec_slug_slash s p1 p2 E)).
  rewrite append_index_cons. reflexivity.
Qed.

(** The string built by [value.slug.replace('^/', '')] is the slug again
    unless the slug holds a circumflex before a slash. *)
Lemma replace_string_circumflex s :
  ~ In 94 s -> JS.replace_string s (lit "^/") [] = s.
Proof.
  induction s as [|x s IH]; intros H; [reflexivity|].
  simpl in H.
  assert (Hx : (94 =? x) = false) by (apply N.eqb_neq; intros E; apply H; auto).
  change (JS.replace_string (x :: s) (lit "^/") [])
    with (if (94 =? x) && JS.startsWith s [Char.slash]
          then [] ++ skipn 2 (x :: s)
          else x :: JS.replace_string s (lit "^/") []).
  rewrite Hx, IH; [reflexivity | tauto].
Qed.

(** ** A slash behind a segment *)

Lemma segment_rest_before_slash r :
  segment_rest (r ++ [Char.slash]) = true -> segment_rest r = true.
Proof.
  induction r as [|y r IH]; simpl; [reflexivity|].
  destruct (Char.is_segment y); [exact IH|].
  destruct (r ++ [Char.slash]) eqn:E; [destruct r; discriminate|].
  rewrite andb_false_r. discriminate.
Qed.

Lemma segment_to_end_before_slash t :
  segment_to_end (t ++ [Char.slash]) = true -> segment_to_end t = true.
Proof.
  destruct t as [|x r]; simpl; [discriminate|].
  intros H. apply andb_true_iff in H. destruct H as [H1 H2].
  rewrite H1, (segment_rest_before_slash r H2). reflexivity.
Qed.

Lemma segment_to_end_add_slash seg :
  segment_to_end seg = true -> JS.endsWith seg (lit "/") = false ->
  segment_to_end (seg ++ [Char.slash]) = true.
Proof.
  destruct seg as [|x r]; simpl; [discriminate|].
  intros H He. apply andb_true_iff in H. destruct H as [H1 H2].
  rewrite H1. simpl.
  destruct (segment_rest_shape r H2) as (body & Hb & [-> | ->]).
  - apply segment_rest_body, Hb.
  - change (x :: body ++ [Char.slash]) with ((x :: body) ++ [Char.slash]) in He.
    rewrite endsWith_slash_last in He. discriminate.
Qed.

(** A slug and the same slug with a slash behind it have the same first
    group. *)
Lemma exec_slug_add_slash s p1 seg :
  exec_slug s = Some (p1, seg) -> JS.endsWith seg (lit "/") = false ->
  exec_slug (s ++ lit "/") = Some (p1, seg ++ lit "/").
Proof.
  change (lit "/") with [Char.slash].
  revert p1. induction s as [|x s IH]; intros p1;
    rewrite exec_slug_unfold.
  - simpl. discriminate.
  - destruct (segment_to_end (x :: s)) eqn:E.
    + intros H He. injection H as <- <-.
      rewrite exec_slug_unfold, (segment_to_end_add_slash _ E He).
      reflexivity.
    + destruct (Char.is_line_terminator x) eqn:L; [discriminate|].
      destruct (exec_slug s) as [[q1 q2]|] eqn:R; [|discriminate].
      intros H He. injection H as <- <-.
      rewrite exec_slug_unfold.
      destruct (segment_to_end ((x :: s) ++ [Char.slash])) eqn:E2.
      * apply segment_to_end_before_slash in E2. congruence.
      * simpl. rewrite L, (IH q1 eq_refl He). reflexivity.
Qed.

(** ** [map] over the records *)

Section Map.

Variables (dirname BUILD_DIR : jsstring) (Context_ : Type).

Implicit Types (v : descriptor Context_) (data : list (descriptor Context_)).

Lemma templates_returns data out :
  templates dirname BUILD_DIR data = Returns out ->
  Forall2 (fun v m => template_of dirname BUILD_DIR v = Returns m) data out.
Proof.
  revert out. induction data as [|v data IH]; intros out; simpl.
  - intros H. injection H as <-. constructor.
  - destruct (template_of dirname BUILD_DIR v) as [t|m] eqn:T; [|discriminate].
    destruct (templates dirname BUILD_DIR data) as [ts|m]; [|discriminate].
    intros H. injection H as <-. constructor; [exact T | apply IH; reflexivity].
Qed.

Lemma templates_defined data :
  Forall (fun v => exists m, template_of dirname BUILD_DIR v = Returns m) data ->
  exists out, templates dirname BUILD_DIR data = Returns out.
Proof.
  induction 1 as [|v data (m & Hm) _ (out & IH)]; simpl.
  - eauto.
  - rewrite Hm, IH. eauto.
Qed.

Lemma templates_throws pre v post msg :
  Forall (fun u => exists m, template_of dirname BUILD_DIR u = Returns m) pre ->
  template_of dirname BUILD_DIR v = Throws msg ->
  templates dirname BUILD_DIR (pre ++ v :: post) = Throws msg.
Proof.
  intros Hpre Hv. induction Hpre as [|u pre (m & Hm) _ IH]; simpl.
  - rewrite Hv. reflexivity.
  - rewrite Hm, IH. reflexivity.
Qed.

Lemma template_of_returns v m :
  template_of dirname BUILD_DIR v = Returns m ->
  from m = dirname ++ lit "/" ++ template v
  /\ to_context m = context v
  /\ resolve BUILD_DIR (slug v) = Returns (to m).
Proof.
  unfold template_of, resolve.
  destruct (resolve_path (slug v)); [|discriminate].
  intros H. injection H as <-. auto.
Qed.

Lemma template_of_defined v d :
  resolve BUILD_DIR (slug v) = Returns d -> exists m, template_of dirname BUILD_DIR v = Returns m.
Proof.
  unfold template_of, resolve.
  destruct (resolve_path (slug v)); [eauto | discriminate].
Qed.

Lemma template_of_throws v msg :
  resolve_path (slug v) = Throws msg -> template_of dirname BUILD_DIR v = Throws msg.
Proof.
  unfold template_of. intros ->. reflexivity.
Qed.

End Map.

(** The destination of a slug whose second group has no dot. *)
Lemma resolve_no_dot B s p1 p2 :
  exec_slug s = Some (p1, p2) ->
  JS.indexOf p2 Char.dot = (-1)%Z ->
  exists dir,
    dir <> [] /\ forallb Char.is_segment dir = true
    /\ JS.endsWith dir (lit "/") = false
    /\ (p2 = dir \/ p2 = dir ++ lit "/")
    /\ resolve B s = Returns (B ++ lit "/" ++ p1 ++ dir ++ lit "/index.html").
Proof.
  intros E Hd. destruct (exec_slug_sound s p1 p2 E) as (_ & _ & Hs).
  destruct (append_index_no_dot p1 p2 Hs Hd) as (dir & H1 & H2 & H3 & H4 & H5).
  exists dir. repeat split; try assumption.
  rewrite (resolve_matched B s p1 p2 E), H5. reflexivity.
Qed.

Lemma segment_chars_no_slash d :
  forallb Char.is_segment d = true -> ~ In Char.slash d.
Proof.
  intros Hd Hin. rewrite forallb_forall in Hd.
  specialize (Hd _ Hin). discriminate.
Qed.

Lemma no_dot_add_slash q :
  JS.indexOf q Char.dot = (-1)%Z ->
  JS.indexOf (q ++ lit "/") Char.dot = (-1)%Z.
Proof.
  rewrite !indexOf_absent. intros H Hin. apply in_app_or in Hin.
  destruct Hin as [Hin | Hin]; [auto|].
  simpl in Hin. destruct Hin as [Hin | []]. discriminate.
Qed.

(** The directory part of a second group without a dot is the group
    without the slash behind it. *)
Lemma resolve_no_dot_dir B s p1 p2 dir :
  exec_slug s = Some (p1, p2) ->
  JS.indexOf p2 Char.dot = (-1)%Z ->
  forallb Char.is_segment dir = true ->
  p2 = dir \/ p2 = dir ++ lit "/" ->
  resolve B s = Returns (B ++ lit "/" ++ p1 ++ dir ++ lit "/index.html").
Proof.
  intros E Hd Hc Hq.
  destruct (resolve_no_dot B s p1 p2 E Hd) as (dir' & _ & Hc' & _ & Hq' & ->).
  assert (dir' = dir); [|subst; reflexivity].
  change (lit "/") with [Char.slash] in *.
  destruct Hq as [-> | ->], Hq' as [Hq' | Hq'].
  - auto.
  - exfalso. apply (segment_chars_no_slash _ Hc). rewrite Hq'.
    apply in_or_app. simpl. auto.
  - exfalso. apply (segment_chars_no_slash _ Hc'). rewrite <- Hq'.
    apply in_or_app. simpl. auto.
  - apply app_inj_tail in Hq'. destruct Hq'. auto.
Qed.


(** * The claims of the specification

    In the statements below the "last segment" and the "parent prefix" of
    a slug are the two groups [exec] returns for it, [path[2]] and
    [path[1]]; "contains no dot" is the test of the source,
    [indexOf('.') === -1]. *)

(** ** Directory-like segments *)

(** C1, as the code has it: for every slug whose last segment contains no
    dot, with or without a slash behind it, the destination is the build
    directory, the parent prefix, the segment without that slash, one
    slash and [index.html]; the part in front of that slash is not empty
    and does not end in a slash, so that there is exactly one. *)
Theorem directory_like_without_dot (B s p1 p2 : jsstring) :
  exec_slug s = Some (p1, p2) ->
  JS.indexOf p2 Char.dot = (-1)%Z ->
  exists dir,
    dir <> [] /\ forallb Char.is_segment dir = true
    /\ JS.endsWith dir (lit "/") = false
    /\ (p2 = dir \/ p2 = dir ++ lit "/")
    /\ resolve B s = Returns (B ++ lit "/" ++ p1 ++ dir ++ lit "/" ++ index_html).
Proof. exact (resolve_no_dot B s p1 p2). Qed.

Lemma directory_like_without_dot_witness :
  exists dir,
    dir <> [] /\ forallb Char.is_segment dir = true
    /\ JS.endsWith dir (lit "/") = false
    /\ (lit "posts/" = dir \/ lit "posts/" = dir ++ lit "/")
    /\ resolve (lit "/site/dist") (lit "blog/posts/")
       = Returns (lit "/site/dist" ++ lit "/" ++ lit "blog/" ++ dir
                  ++ lit "/" ++ index_html).
Proof.
  apply (directory_like_without_dot
           (lit "/site/dist") (lit "blog/posts/") (lit "blog/") (lit "posts/"));
    reflexivity.
Defined.

(** C1 as the specification states it fails on a last segment that has a
    dot and a slash behind it: the slug [a.b/] goes through the branch of
    named files and gets two slashes before [index.html]. *)
Lemma dotted_directory_two_separators :
  exec_slug (lit "a.b/") = Some ([], lit "a.b/")
  /\ JS.endsWith (lit "a.b/") (lit "/") = true
  /\ resolve (lit "/site/dist") (lit "a.b/")
     = Returns (lit "/site/dist/a.b//index.html")
  /\ resolve (lit "/site/dist") (lit "a.b/")
     <> Returns (lit "/site/dist/a.b/index.html").
Proof. repeat split; try reflexivity. discriminate. Qed.

(** C3: for every slug whose last segment contains no dot, the destination
    holds the segment, one slash and [index.html], whether the slug is
    written without a slash behind the segment, with one added to it, or
    matched with one; [about] and [about/] both give
    [about/index.html]. *)
Theorem no_dot_one_separator (B s p1 seg : jsstring) :
  (exec_slug s = Some (p1, seg) ->
   JS.indexOf seg Char.dot = (-1)%Z ->
   JS.endsWith seg (lit "/") = false ->
   resolve B s = Returns (B ++ lit "/" ++ p1 ++ seg ++ lit "/index.html")
   /\ resolve B (s ++ lit "/")
      = Returns (B ++ lit "/" ++ p1 ++ seg ++ lit "/index.html"))
  /\ (exec_slug s = Some (p1, seg ++ lit "/") ->
      JS.indexOf seg Char.dot = (-1)%Z ->
      resolve B s = Returns (B ++ lit "/" ++ p1 ++ seg ++ lit "/index.html"))
  /\ resolve B (lit "about") = Returns (B ++ lit "/about/index.html")
  /\ resolve B (lit "about/") = Returns (B ++ lit "/about/index.html").
Proof.
  split; [|split; [|split; reflexivity]].
  - intros E Hd He.
    destruct (exec_slug_sound s p1 seg E) as (_ & _ & Hs).
    destruct (segment_to_end_shape seg Hs) as (dir & _ & Hc & [-> | ->]).
    + split.
      * apply (resolve_no_dot_dir B s p1 dir dir E Hd Hc). auto.
      * apply (resolve_no_dot_dir B _ p1 (dir ++ lit "/") dir
                 (exec_slug_add_slash s p1 dir E He));
          [apply no_dot_add_slash, Hd | exact Hc | auto].
    + rewrite endsWith_slash_last in He. discriminate.
  - intros E Hd.
    destruct (exec_slug_sound s p1 _ E) as (_ & _ & Hs).
    assert (Hseg : forallb Char.is_segment seg = true).
    { change (lit "/") with [Char.slash] in Hs.
      destruct (segment_to_end_shape _ Hs) as (dir & _ & Hc & [Hq | Hq]).
      - exfalso. apply (segment_chars_no_slash _ Hc). rewrite <- Hq.
        apply in_or_app. right. simpl. auto.
      - apply app_inj_tail in Hq. destruct Hq as [-> _]. exact Hc. }
    apply (resolve_no_dot_dir B s p1 (seg ++ lit "/") seg E);
      [apply no_dot_add_slash, Hd | exact Hseg | auto].
Qed.

Lemma no_dot_one_separator_witness :
  resolve (lit "/site/dist") (lit "docs/guide")
  = Returns (lit "/site/dist" ++ lit "/" ++ lit "docs/" ++ lit "guide"
             ++ lit "/index.html")
  /\ resolve (lit "/site/dist") (lit "docs/guide" ++ lit "/")
     = Returns (lit "/site/dist" ++ lit "/" ++ lit "docs/" ++ lit "guide"
                ++ lit "/index.html").
Proof.
  apply (proj1 (no_dot_one_separator
                  (lit "/site/dist") (lit "docs/guide") (lit "docs/")
                  (lit "guide")));
    reflexivity.
Defined.

(** ** Named files *)

Lemma strip_from_last_dot_cut base ext :
  forallb Char.is_word ext = true ->
  strip_from_last_dot (base ++ Char.dot :: ext) = base.
Proof.
  intros Hw.
  assert (He : JS.indexOf ext Char.dot = (-1)%Z).
  { apply indexOf_absent. intros Hin. rewrite forallb_forall in Hw.
    specialize (Hw _ Hin). discriminate. }
  induction base as [|x base IH]; simpl.
  - change (46 =? Char.dot) with true. rewrite He. reflexivity.
  - replace (JS.indexOf (base ++ Char.dot :: ext) Char.dot =? -1)%Z with false.
    + rewrite andb_false_r, IH. reflexivity.
    + symmetry. apply Z.eqb_neq. rewrite indexOf_absent. intros H.
      apply H, in_or_app. simpl. auto.
Qed.

(** C2, as the code has it: for every slug whose last segment ends in a
    dot followed by one or more word characters, and is not [index.html],
    that dot is the last one of the segment, the text from it to the end
    is removed, and the destination is the parent prefix, the remaining
    base name and [/index.html]; [about/team.html] gives
    [about/team/index.html] and [a.b.c] gives [a.b/index.html]. *)
Theorem named_file_word_extension (B s p1 base ext : jsstring) :
  (exec_slug s = Some (p1, base ++ lit "." ++ ext) ->
   ext <> [] -> forallb Char.is_word ext = true ->
   base ++ lit "." ++ ext <> index_html ->
   strip_from_last_dot (base ++ lit "." ++ ext) = base
   /\ resolve B s = Returns (B ++ lit "/" ++ p1 ++ base ++ lit "/index.html"))
  /\ resolve B (lit "about/team.html")
     = Returns (B ++ lit "/about/team/index.html")
  /\ resolve B (lit "a.b.c") = Returns (B ++ lit "/a.b/index.html").
Proof.
  split; [|split; reflexivity].
  change (lit "." ++ ext) with (Char.dot :: ext).
  intros E Hn Hw Hi. split; [apply strip_from_last_dot_cut, Hw|].
  rewrite (resolve_matched B s _ _ E). unfold append_index.
  replace (JS.indexOf (base ++ Char.dot :: ext) Char.dot =? -1)%Z with false.
  - replace (JS.eqb (base ++ Char.dot :: ext) index_html) with false.
    + simpl negb. cbv iota. rewrite (replace_extension_cut base ext Hn Hw).
      reflexivity.
    + symmetry. apply not_true_is_false. rewrite eqb_eq. exact Hi.
  - symmetry. apply Z.eqb_neq. rewrite indexOf_absent. intros H.
    apply H, in_or_app. simpl. auto.
Qed.

Lemma named_file_word_extension_witness :
  strip_from_last_dot (lit "guide.v2" ++ lit "." ++ lit "md") = lit "guide.v2"
  /\ resolve (lit "/site/dist") (lit "docs/guide.v2.md")
     = Returns (lit "/site/dist" ++ lit "/" ++ lit "docs/" ++ lit "guide.v2"
                ++ lit "/index.html").
Proof.
  apply (proj1 (named_file_word_extension
                  (lit "/site/dist") (lit "docs/guide.v2.md") (lit "docs/")
                  (lit "guide.v2") (lit "md")));
    [reflexivity | discriminate | reflexivity | discriminate].
Defined.

(** C2 as the specification states it fails when the text behind the last
    dot is not made of word characters only: the last segment [a.b-c] has
    a dot and is not [index.html], and nothing of it is removed. *)
Lemma hyphenated_extension_kept :
  exec_slug (lit "a.b-c") = Some ([], lit "a.b-c")
  /\ JS.indexOf (lit "a.b-c") Char.dot <> (-1)%Z
  /\ lit "a.b-c" <> index_html
  /\ strip_from_last_dot (lit "a.b-c") = lit "a"
  /\ resolve (lit "/site/dist") (lit "a.b-c")
     = Returns (lit "/site/dist/a.b-c/index.html")
  /\ resolve (lit "/site/dist") (lit "a.b-c")
     <> Returns (lit "/site/dist" ++ lit "/"
                 ++ strip_from_last_dot (lit "a.b-c") ++ lit "/index.html").
Proof. repeat split; try reflexivity; discriminate. Qed.

(** ** [index.html] *)

(** C4: for every slug whose last segment is [index.html] the destination
    is the parent prefix and [index.html], that is the slug itself under
    the build directory ([about/index.html] stays [about/index.html]);
    and every path [d] the resolution produces under the build directory
    ends in [index.html] and resolves to itself, so that resolving [d]
    gives the destination of the slug it came from. *)
Theorem index_html_idempotent (B s p1 d : jsstring) :
  (exec_slug s = Some (p1, index_html) ->
   resolve B s = Returns (B ++ lit "/" ++ p1 ++ index_html)
   /\ resolve B s = Returns (B ++ lit "/" ++ s))
  /\ resolve B (lit "about/index.html")
     = Returns (B ++ lit "/about/index.html")
  /\ (resolve_path s = Returns d ->
      JS.endsWith d index_html = true
      /\ resolve_path d = Returns d
      /\ resolve B d = Returns (B ++ lit "/" ++ d)
      /\ resolve B d = resolve B s).
Proof.
  split; [|split; [reflexivity|]].
  - intros E. destruct (exec_slug_sound s p1 _ E) as (Hs & _ & _).
    rewrite (resolve_matched B s _ _ E), append_index_index_html.
    rewrite <- Hs. auto.
  - intros H. destruct (resolve_path_fixed s d H) as ((pre & Hp) & Hf).
    split; [rewrite Hp; apply endsWith_app|].
    split; [exact Hf|].
    rewrite (resolve_of_path B d d Hf), (resolve_of_path B s d H). auto.
Qed.

Lemma index_html_idempotent_witness :
  (resolve (lit "/site/dist") (lit "blog/index.html")
   = Returns (lit "/site/dist" ++ lit "/" ++ lit "blog/" ++ index_html)
   /\ resolve (lit "/site/dist") (lit "blog/index.html")
      = Returns (lit "/site/dist" ++ lit "/" ++ lit "blog/index.html"))
  /\ (JS.endsWith (lit "blog/post/index.html") index_html = true
      /\ resolve_path (lit "blog/post/index.html")
         = Returns (lit "blog/post/index.html")
      /\ resolve (lit "/site/dist") (lit "blog/post/index.html")
         = Returns (lit "/site/dist" ++ lit "/" ++ lit "blog/post/index.html")
      /\ resolve (lit "/site/dist") (lit "blog/post/index.html")
         = resolve (lit "/site/dist") (lit "blog/post.html")).
Proof.
  split.
  - apply (proj1 (index_html_idempotent
                    (lit "/site/dist") (lit "blog/index.html") (lit "blog/")
                    (lit "blog/post/index.html"))).
    reflexivity.
  - apply (proj2 (proj2 (index_html_idempotent
                           (lit "/site/dist") (lit "blog/post.html") []
                           (lit "blog/post/index.html")))).
    reflexivity.
Defined.

(** ** The shape of every destination *)

Lemma resolve_ends_index_html B s d :
  resolve B s = Returns d ->
  exists pre, d = (B ++ lit "/" ++ pre) ++ index_html.
Proof.
  intros H. destruct (resolve_returns B s d H) as (p & Hp & ->).
  destruct (resolve_path_fixed s p Hp) as ((pre & ->) & _).
  exists pre. rewrite <- !app_assoc. reflexivity.
Qed.

(** C10: for every slug on which resolution succeeds, the destination ends
    with the text [index.html]. *)
Theorem destination_ends_index_html (B s d : jsstring) :
  resolve B s = Returns d ->
  JS.endsWith d (lit "index.html") = true
  /\ exists pre, d = pre ++ lit "index.html".
Proof.
  intros H. destruct (resolve_ends_index_html B s d H) as (pre & ->).
  split; [apply endsWith_app | eauto].
Qed.

Lemma destination_ends_index_html_witness :
  JS.endsWith (lit "/site/dist/a.b//index.html") (lit "index.html") = true
  /\ exists pre, lit "/site/dist/a.b//index.html" = pre ++ lit "index.html".
Proof.
  apply (destination_ends_index_html (lit "/site/dist") (lit "a.b/")).
  reflexivity.
Defined.

(** C8: for every slug on which resolution succeeds, the destination is
    the build directory, a slash and a relative path, hence absolute when
    the build directory is, and the text behind its last slash contains a
    dot. *)
Theorem destination_rooted_dotted (B s d : jsstring) :
  resolve B s = Returns d ->
  (exists rel, d = B ++ lit "/" ++ rel)
  /\ (JS.startsWith B (lit "/") = true -> JS.startsWith d (lit "/") = true)
  /\ JS.indexOf (final_segment d) Char.dot <> (-1)%Z.
Proof.
  intros H. split; [|split].
  - destruct (resolve_returns B s d H) as (p & _ & ->). eauto.
  - destruct (resolve_returns B s d H) as (p & _ & ->).
    apply startsWith_slash_app.
  - destruct (resolve_ends_index_html B s d H) as (pre & ->).
    rewrite final_segment_index_html, indexOf_absent. intros Hn.
    apply Hn, in_or_app. right. unfold index_html. simpl. tauto.
Qed.

Lemma destination_rooted_dotted_witness :
  (exists rel, lit "/site/dist/-index.html" = lit "/site/dist" ++ lit "/" ++ rel)
  /\ (JS.startsWith (lit "/site/dist") (lit "/") = true ->
      JS.startsWith (lit "/site/dist/-index.html") (lit "/") = true)
  /\ JS.indexOf (final_segment (lit "/site/dist/-index.html")) Char.dot
     <> (-1)%Z.
Proof.
  apply (destination_rooted_dotted (lit "/site/dist") (lit "-index.html")).
  reflexivity.
Defined.

(** ** Slugs the expression does not match *)

Lemma templates_all_resolved dirname B Ctx
      (data : list (descriptor Ctx)) (out : list (mapping Ctx)) :
  templates dirname B data = Returns out ->
  Forall (fun v => exists d, resolve B (slug v) = Returns d) data.
Proof.
  intros H. apply templates_returns in H.
  induction H as [|v m data out Hv _ IH]; constructor; [|exact IH].
  exists (to m). apply (template_of_returns dirname B Ctx v m Hv).
Qed.

Lemma resolved_template_of dirname B Ctx (l : list (descriptor Ctx)) :
  Forall (fun v => exists d, resolve B (slug v) = Returns d) l ->
  Forall (fun v => exists m, template_of dirname B v = Returns m) l.
Proof.
  apply Forall_impl. intros v (d & Hd).
  exact (template_of_defined dirname B Ctx v d Hd).
Qed.

(** C5, as the code has it: resolution throws, with the message
    [Incorrect slug: ] followed by the slug, exactly when the slug cannot
    be split into a prefix without line terminator and a trailing segment
    of the character class; the empty slug is such a slug; and the first
    record of the list whose slug is such a slug makes [map] throw that
    error, whatever records follow, so that a list of mappings exists only
    when every slug resolves. *)
Theorem incorrect_slug_exactly (B s : jsstring) :
  (resolve B s = Throws (incorrect_slug s) <->
   ~ exists p1 p2,
       s = p1 ++ p2 /\ dot_star p1 = true /\ segment_to_end p2 = true)
  /\ (forall m, resolve B s = Throws m -> m = incorrect_slug s)
  /\ ((exists d, resolve B s = Returns d) <->
      exists p1 p2,
        s = p1 ++ p2 /\ dot_star p1 = true /\ segment_to_end p2 = true)
  /\ resolve B [] = Throws (incorrect_slug [])
  /\ (forall dirname Ctx (pre post : list (descriptor Ctx)) v,
         Forall (fun u => exists d, resolve B (slug u) = Returns d) pre ->
         resolve B (slug v) = Throws (incorrect_slug (slug v)) ->
         templates dirname B (pre ++ v :: post)
         = Throws (incorrect_slug (slug v)))
  /\ (forall dirname Ctx (data : list (descriptor Ctx)) out,
         templates dirname B data = Returns out ->
         Forall (fun v => exists d, resolve B (slug v) = Returns d) data).
Proof.
  repeat split.
  - intros H. apply resolve_throws, resolve_path_throws in H.
    apply exec_slug_null, H.
  - intros H. apply resolve_throws, resolve_path_null, exec_slug_null, H.
  - intros m H. apply resolve_throws, resolve_path_throws in H. apply H.
  - intros (d & H). destruct (resolve_returns B s d H) as (p & Hp & _).
    destruct (resolve_path_returns s p Hp) as (p1 & p2 & E & _).
    exists p1, p2. apply exec_slug_sound, E.
  - intros (p1 & p2 & -> & H1 & H2).
    destruct (exec_slug_defined p1 p2 H1 H2) as (q1 & q2 & E).
    rewrite (resolve_matched B _ q1 q2 E). eauto.
  - intros dirname Ctx pre post v Hpre Hv.
    apply templates_throws; [apply resolved_template_of, Hpre|].
    apply template_of_throws. apply (proj1 (resolve_throws B _ _)), Hv.
  - intros dirname Ctx data out. apply templates_all_resolved.
Qed.

Lemma incorrect_slug_exactly_witness :
  (exists d, resolve (lit "/site/dist") (lit "docs/about") = Returns d)
  /\ templates (lit "/site") (lit "/site/dist")
       ([Descriptor (lit "about") (lit "about.njk") 1%nat]
        ++ Descriptor (lit "//") (lit "home.njk") 2%nat
        :: [Descriptor (lit "blog") (lit "blog.njk") 3%nat])
     = Throws (incorrect_slug (lit "//")).
Proof.
  split.
  - apply (proj2 (proj1 (proj2 (proj2
             (incorrect_slug_exactly (lit "/site/dist") (lit "docs/about")))))).
    exists (lit "docs/"), (lit "about"). repeat split; reflexivity.
  - apply (proj1 (proj2 (proj2 (proj2 (proj2
             (incorrect_slug_exactly (lit "/site/dist") [])))))
             (lit "/site") nat
             [Descriptor (lit "about") (lit "about.njk") 1%nat]
             [Descriptor (lit "blog") (lit "blog.njk") 3%nat]
             (Descriptor (lit "//") (lit "home.njk") 2%nat)).
    + constructor; [|constructor].
      exists (lit "/site/dist/about/index.html"). reflexivity.
    + reflexivity.
Defined.

(** C5 as the specification states it fails on a slug with a line
    terminator before its last segment: the slug made of [a], a line feed
    and [b] ends in the segment [b], and resolution throws. *)
Lemma line_terminator_slug_throws :
  (exists p1 p2,
      lit "a" ++ [10] ++ lit "b" = p1 ++ p2 /\ segment_to_end p2 = true)
  /\ resolve (lit "/site/dist") (lit "a" ++ [10] ++ lit "b")
     = Throws (incorrect_slug (lit "a" ++ [10] ++ lit "b")).
Proof.
  split; [|reflexivity].
  exists (lit "a" ++ [10]), (lit "b"). split; reflexivity.
Qed.

(** C6, as the code has it: the slug [/] holds no word character, the
    expression does not match it, and resolution throws the error of
    incorrect slugs. *)
Theorem separator_slug_throws (B : jsstring) :
  resolve B (lit "/") = Throws (incorrect_slug (lit "/")).
Proof. reflexivity. Qed.

(** C6 as the specification states it fails: the slug [/] does not resolve
    to [index.html] under the build directory. *)
Lemma separator_slug_not_index :
  resolve (lit "/site/dist") (lit "/")
  <> Returns (lit "/site/dist" ++ lit "/" ++ lit "index.html").
Proof. discriminate. Qed.

(** ** A slash in front of the slug *)

(** C7 does not hold of the code: the string without the leading slash is
    built and dropped, the slash stays in the first group, and [/about]
    gets two slashes behind the build directory where [about] gets one. *)
Theorem leading_separator_kept (B : jsstring) :
  JS.replace_string (lit "/about") (lit "^/") [] = lit "/about"
  /\ resolve B (lit "/about") = Returns (B ++ lit "//about/index.html")
  /\ resolve B (lit "about") = Returns (B ++ lit "/about/index.html")
  /\ resolve B (lit "/" ++ lit "about") <> resolve B (lit "about").
Proof.
  repeat split. intros H. injection H as H.
  apply app_inv_head in H. discriminate.
Qed.

(** For every slug that resolves, the slash put in front of it shows in the
    destination. *)
Lemma resolve_leading_slash B s p :
  resolve_path s = Returns p ->
  resolve B s = Returns (B ++ lit "/" ++ p)
  /\ resolve B (lit "/" ++ s) = Returns (B ++ lit "/" ++ lit "/" ++ p).
Proof.
  intros H. split; apply resolve_of_path; [exact H|].
  apply resolve_path_slash, H.
Qed.

(** More generally the expression looks at the end of the slug only: what
    stands before a slash is carried over to the path as it is. *)
Lemma exec_slug_under a s p1 p2 :
  dot_star a = true -> exec_slug s = Some (p1, p2) ->
  exec_slug (a ++ Char.slash :: s) = Some (a ++ Char.slash :: p1, p2).
Proof.
  intros Ha E. induction a as [|x a IH].
  - apply exec_slug_slash, E.
  - simpl in Ha. apply andb_true_iff in Ha. destruct Ha as [Hx Ha].
    apply negb_true_iff in Hx. rewrite exec_slug_unfold.
    rewrite segment_to_end_slash_inside by (intros ->; discriminate E).
    simpl. rewrite Hx, (IH Ha). reflexivity.
Qed.

Lemma append_index_app a p1 p2 :
  append_index (a ++ p1) p2 = a ++ append_index p1 p2.
Proof.
  induction a as [|x a IH]; [reflexivity|].
  simpl. rewrite append_index_cons, IH. reflexivity.
Qed.

Lemma resolve_path_under a s p :
  dot_star a = true -> resolve_path s = Returns p ->
  resolve_path (a ++ lit "/" ++ s) = Returns (a ++ lit "/" ++ p).
Proof.
  intros Ha H. destruct (resolve_path_returns s p H) as (p1 & p2 & E & ->).
  change (lit "/" ++ s) with (Char.slash :: s).
  rewrite (resolve_path_matched _ _ _ (exec_slug_under a s p1 p2 Ha E)).
  change (a ++ Char.slash :: p1) with (a ++ [Char.slash] ++ p1).
  rewrite app_assoc, append_index_app, <- app_assoc. reflexivity.
Qed.

(** What resolves to itself is the path under the build directory: a
    destination taken with the build directory in front of it gets the
    build directory once more. *)
Remark resolve_destination_again B s d :
  dot_star B = true -> resolve B s = Returns d ->
  resolve B d = Returns (B ++ lit "/" ++ d).
Proof.
  intros HB H. destruct (resolve_returns B s d H) as (p & Hp & ->).
  destruct (resolve_path_fixed s p Hp) as (_ & Hf).
  apply resolve_of_path, resolve_path_under; assumption.
Qed.

(** ** The list of mappings *)

Lemma Forall2_nth_error {A C : Type} (R : A -> C -> Prop) l l' :
  Forall2 R l l' ->
  forall i v, nth_error l i = Some v ->
  exists m, nth_error l' i = Some m /\ R v m.
Proof.
  induction 1 as [|x y l l' Hxy _ IH]; intros [|i] v; simpl; try discriminate.
  - intros H. injection H as <-. eauto.
  - apply IH.
Qed.

(** C9: a list of records all of whose slugs resolve gives a list of
    mappings; that list has the length of the list of records, and its
    mapping at each position comes from the record at that position: its
    context is the context of the record, its source the template of the
    record under the directory of the configuration, and its destination
    the destination of the slug of the record. *)
Theorem templates_one_to_one (dirname B : jsstring) (Ctx : Type)
        (data : list (descriptor Ctx)) :
  (Forall (fun v => exists d, resolve B (slug v) = Returns d) data ->
   exists out, templates dirname B data = Returns out)
  /\ (forall out,
         templates dirname B data = Returns out ->
         List.length out = List.length data
         /\ List.map to_context out = List.map context data
         /\ forall i v,
             nth_error data i = Some v ->
             exists m,
               nth_error out i = Some m
               /\ to_context m = context v
               /\ from m = dirname ++ lit "/" ++ template v
               /\ resolve B (slug v) = Returns (to m)).
Proof.
  split.
  - intros H. apply templates_defined, resolved_template_of, H.
  - intros out H. apply templates_returns in H. split; [|split].
    + symmetry. apply (Forall2_length H).
    + induction H as [|v m l l' Hv _ IH]; simpl; [reflexivity|].
      destruct (template_of_returns dirname B Ctx v m Hv) as (_ & -> & _).
      rewrite IH. reflexivity.
    + intros i v Hi.
      destruct (Forall2_nth_error _ _ _ H i v Hi) as (m & Hm & Hv).
      destruct (template_of_returns dirname B Ctx v m Hv) as (H1 & H2 & H3).
      eauto.
Qed.

Lemma templates_one_to_one_witness :
  exists out,
    templates (lit "/site") (lit "/site/dist")
      [Descriptor (lit "about") (lit "about.njk") 1%nat;
       Descriptor (lit "blog/index.html") (lit "blog.njk") 2%nat]
    = Returns out
    /\ List.length out = 2%nat
    /\ List.map to_context out = [1%nat; 2%nat].
Proof.
  pose (data := [Descriptor (lit "about") (lit "about.njk") 1%nat;
                 Descriptor (lit "blog/index.html") (lit "blog.njk") 2%nat]).
  destruct (templates_one_to_one (lit "/site") (lit "/site/dist") nat data)
    as [Hex Hall].
  assert (Hres : Forall (fun v => exists d,
                             resolve (lit "/site/dist") (slug v) = Returns d)
                        data).
  { constructor; [|constructor; [|constructor]].
    - exists (lit "/site/dist/about/index.html"). reflexivity.
    - exists (lit "/site/dist/blog/index.html"). reflexivity. }
  destruct (Hex Hres) as (out & Hout).
  exists out. destruct (Hall out Hout) as (Hl & Hc & _).
  split; [exact Hout | split; [exact Hl | exact Hc]].
Defined.

(** * Further properties of the callback *)

(** ** The expression of the slug, completely *)

(** X1: [exec] returns the groups [(p1, p2)] for a slug exactly when the
    slug is [p1] followed by [p2], [p1] holds no line terminator, [p2] is a
    segment, and no longer suffix of the slug is a segment: the lazy first
    group makes the second one the longest segment at the end. *)
Theorem exec_slug_longest_suffix (s p1 p2 : jsstring) :
  exec_slug s = Some (p1, p2) <->
  s = p1 ++ p2 /\ dot_star p1 = true /\ segment_to_end p2 = true
  /\ (forall q1 q2, s = q1 ++ q2 -> segment_to_end q2 = true ->
                    (List.length q2 <= List.length p2)%nat).
Proof.
  split.
  - intros E. destruct (exec_slug_sound s p1 p2 E) as (H1 & H2 & H3).
    repeat split; try assumption. apply (exec_slug_longest s p1 p2 E).
  - intros (-> & H1 & H2 & H3). apply exec_slug_complete; assumption.
Qed.

(** ** The extension of a named file *)

Lemma replace_extension_not_word t c :
  Char.is_word c = false ->
  JS.replace_extension (t ++ [c]) = t ++ [c].
Proof.
  intros Hc. induction t as [|x t IH]; simpl.
  - rewrite andb_false_r. reflexivity.
  - replace (JS.word_run_to_end (t ++ [c])) with false.
    + rewrite andb_false_r, IH. reflexivity.
    + symmetry. apply not_true_is_false. rewrite word_run_to_end_iff.
      intros (_ & H). rewrite forallb_app in H. simpl in H.
      rewrite Hc, andb_false_r in H. discriminate.
Qed.

Lemma replace_extension_split (s : jsstring) :
  (exists base ext,
      s = base ++ Char.dot :: ext /\ ext <> []
      /\ forallb Char.is_word ext = true
      /\ JS.replace_extension s = base)
  \/ ((forall base ext,
          s = base ++ Char.dot :: ext ->
          ext = [] \/ forallb Char.is_word ext = false)
      /\ JS.replace_extension s = s).
Proof.
  induction s as [|x s IH].
  - right. split; [|reflexivity]. intros [|y base] ext H; discriminate.
  - simpl. destruct ((x =? Char.dot) && JS.word_run_to_end s) eqn:E.
    + left. apply andb_true_iff in E. destruct E as [Ex Ew].
      apply N.eqb_eq in Ex. apply word_run_to_end_iff in Ew.
      exists [], s. subst x. tauto.
    + destruct IH as [(base & ext & -> & Hn & Hw & ->) | (Hall & ->)].
      * left. exists (x :: base), ext. auto.
      * right. split; [|reflexivity]. intros [|y base] ext H.
        -- simpl in H. injection H as -> ->. rewrite N.eqb_refl in E.
           simpl in E. destruct ext as [|e ext]; [auto|]. right.
           apply not_true_is_false. intros Hw.
           assert (JS.word_run_to_end (e :: ext) = true)
             by (apply word_run_to_end_iff; split; [discriminate | exact Hw]).
           congruence.
        -- simpl in H. injection H as _ H. exact (Hall base ext H).
Qed.

(** X2: [replace(/\.\w+$/, '')] either cuts the string at a dot that is
    followed by one or more word characters up to the end, and returns
    what stands before that dot, or finds no such dot and returns the
    string as it is. *)
Theorem replace_extension_cases (s : jsstring) :
  (exists base ext,
      s = base ++ Char.dot :: ext /\ ext <> []
      /\ forallb Char.is_word ext = true
      /\ JS.replace_extension s = base)
  \/ ((forall base ext,
          s = base ++ Char.dot :: ext ->
          ext = [] \/ forallb Char.is_word ext = false)
      /\ JS.replace_extension s = s).
Proof. exact (replace_extension_split s). Qed.

Lemma index_html_word_extension :
  index_html = lit "index" ++ Char.dot :: lit "html".
Proof. reflexivity. Qed.

(** X3: a last segment with a dot that does not end in a dot followed by
    word characters only keeps all its text: the destination is the
    parent prefix, the whole segment and [/index.html]. *)
Theorem named_file_kept_whole (B s p1 p2 : jsstring) :
  exec_slug s = Some (p1, p2) ->
  JS.indexOf p2 Char.dot <> (-1)%Z ->
  (forall base ext,
      p2 = base ++ Char.dot :: ext ->
      ext = [] \/ forallb Char.is_word ext = false) ->
  resolve B s = Returns (B ++ lit "/" ++ p1 ++ p2 ++ lit "/index.html").
Proof.
  intros E Hd Hall. rewrite (resolve_matched B s p1 p2 E).
  unfold append_index.
  replace (JS.indexOf p2 Char.dot =? -1)%Z with false
    by (symmetry; apply Z.eqb_neq, Hd).
  replace (JS.eqb p2 index_html) with false.
  - simpl negb. cbv iota.
    destruct (replace_extension_split p2)
      as [(base & ext & Hp & Hn & Hw & _) | (_ & ->)]; [|reflexivity].
    destruct (Hall base ext Hp) as [He | He]; congruence.
  - symmetry. apply not_true_is_false. rewrite eqb_eq. intros ->.
    destruct (Hall _ _ index_html_word_extension) as [He | He]; discriminate.
Qed.

Lemma named_file_kept_whole_witness :
  resolve (lit "/site/dist") (lit "notes/v1.2-beta")
  = Returns (lit "/site/dist" ++ lit "/" ++ lit "notes/" ++ lit "v1.2-beta"
             ++ lit "/index.html").
Proof.
  apply (named_file_kept_whole
           (lit "/site/dist") (lit "notes/v1.2-beta") (lit "notes/")
           (lit "v1.2-beta")).
  - reflexivity.
  - discriminate.
  - destruct (replace_extension_split (lit "v1.2-beta"))
      as [(base & ext & Hp & _ & _ & Hr) | (Hall & _)]; [|exact Hall].
    exfalso. vm_compute in Hr. subst base.
    apply (f_equal (@List.length _)) in Hp. rewrite length_app in Hp.
    simpl in Hp. lia.
Defined.

(** X4: a last segment that has a dot and a slash behind it keeps that
    slash, and the slash of [/index.html] comes after it: the destination
    has two slashes before [index.html]. *)
Theorem dotted_segment_trailing_slash (B s p1 dir : jsstring) :
  exec_slug s = Some (p1, dir ++ lit "/") ->
  JS.indexOf dir Char.dot <> (-1)%Z ->
  resolve B s = Returns (B ++ lit "/" ++ p1 ++ dir ++ lit "//index.html").
Proof.
  intros E Hd. rewrite (resolve_matched B s _ _ E). unfold append_index.
  change (lit "/") with [Char.slash].
  replace (JS.indexOf (dir ++ [Char.slash]) Char.dot =? -1)%Z with false.
  - replace (JS.eqb (dir ++ [Char.slash]) index_html) with false.
    + simpl negb. cbv iota.
      rewrite replace_extension_not_word by reflexivity.
      rewrite <- !app_assoc. reflexivity.
    + symmetry. apply not_true_is_false. rewrite eqb_eq.
      change index_html with (lit "index.htm" ++ [108]). intros H.
      apply app_inj_tail in H. destruct H. discriminate.
  - symmetry. apply Z.eqb_neq. rewrite indexOf_absent in *. intros H.
    apply Hd. intros Hin. apply H, in_or_app. auto.
Qed.

Lemma dotted_segment_trailing_slash_witness :
  resolve (lit "/site/dist") (lit "docs/v1.2/")
  = Returns (lit "/site/dist" ++ lit "/" ++ lit "docs/" ++ lit "v1.2"
             ++ lit "//index.html").
Proof.
  apply (dotted_segment_trailing_slash
           (lit "/site/dist") (lit "docs/v1.2/") (lit "docs/") (lit "v1.2"));
    [reflexivity | discriminate].
Defined.

(** ** Slugs with the same destination *)

Lemma segment_rest_prefix r t :
  t <> [] -> segment_rest (r ++ t) = true ->
  forallb Char.is_segment r = true.
Proof.
  intros Ht. induction r as [|y r IH]; simpl; [reflexivity|].
  destruct (Char.is_segment y); [exact IH|].
  destruct (r ++ t) eqn:E.
  - apply app_eq_nil in E. destruct E. contradiction.
  - rewrite andb_false_r. discriminate.
Qed.

Lemma segment_to_end_before_ext u ext :
  u <> [] -> segment_to_end (u ++ Char.dot :: ext) = true ->
  segment_to_end u = true.
Proof.
  destruct u as [|x r]; [contradiction|]. intros _. simpl.
  intros H. apply andb_true_iff in H. destruct H as [H1 H2].
  rewrite H1. simpl. apply segment_rest_body.
  apply (segment_rest_prefix r (Char.dot :: ext)); [discriminate | exact H2].
Qed.

Lemma word_chars_segment ext :
  forallb Char.is_word ext = true -> forallb Char.is_segment ext = true.
Proof.
  induction ext as [|e ext IH]; simpl; [reflexivity|].
  intros H. apply andb_true_iff in H. destruct H as [H1 H2].
  rewrite (word_is_segment e H1). auto.
Qed.

Lemma segment_to_end_add_ext seg ext :
  segment_to_end seg = true -> JS.endsWith seg (lit "/") = false ->
  forallb Char.is_word ext = true ->
  segment_to_end (seg ++ Char.dot :: ext) = true.
Proof.
  destruct seg as [|x r]; simpl; [discriminate|].
  intros H He Hw. apply andb_true_iff in H. destruct H as [H1 H2].
  rewrite H1. simpl.
  destruct (segment_rest_shape r H2) as (body & Hb & [-> | ->]).
  - apply segment_rest_body. rewrite forallb_app, Hb. simpl.
    apply word_chars_segment, Hw.
  - change (x :: body ++ [Char.slash]) with ((x :: body) ++ [Char.slash]) in He.
    rewrite endsWith_slash_last in He. discriminate.
Qed.

(** A slug and the same slug with an extension of word characters have the
    same first group. *)
Lemma exec_slug_add_ext s p1 seg ext :
  exec_slug s = Some (p1, seg) -> JS.endsWith seg (lit "/") = false ->
  forallb Char.is_word ext = true ->
  exec_slug (s ++ Char.dot :: ext) = Some (p1, seg ++ Char.dot :: ext).
Proof.
  intros E He Hw. revert p1 E. induction s as [|x s IH]; intros p1;
    rewrite exec_slug_unfold.
  - simpl. discriminate.
  - destruct (segment_to_end (x :: s)) eqn:E.
    + intros H. injection H as <- <-.
      rewrite exec_slug_unfold, (segment_to_end_add_ext _ _ E He Hw).
      reflexivity.
    + destruct (Char.is_line_terminator x) eqn:L; [discriminate|].
      destruct (exec_slug s) as [[q1 q2]|] eqn:R; [|discriminate].
      intros H. injection H as <- <-.
      rewrite exec_slug_unfold.
      destruct (segment_to_end ((x :: s) ++ Char.dot :: ext)) eqn:E2.
      * apply segment_to_end_before_ext in E2; [congruence | discriminate].
      * simpl. rewrite L, (IH q1 eq_refl). reflexivity.
Qed.

(** X5: the destinations are not one per slug.  For a slug whose last
    segment has no dot and no slash behind it, the slug with a slash
    added, the slug with [/index.html] added and the slug with an
    extension of word characters added (unless that makes the segment
    [index.html]) all get the destination of the slug itself. *)
Theorem slugs_with_same_destination (B s p1 seg ext : jsstring) :
  exec_slug s = Some (p1, seg) ->
  JS.indexOf seg Char.dot = (-1)%Z ->
  JS.endsWith seg (lit "/") = false ->
  ext <> [] -> forallb Char.is_word ext = true ->
  seg ++ lit "." ++ ext <> index_html ->
  resolve B s = Returns (B ++ lit "/" ++ s ++ lit "/index.html")
  /\ resolve B (s ++ lit "/") = resolve B s
  /\ resolve B (s ++ lit "/index.html") = resolve B s
  /\ resolve B (s ++ lit "." ++ ext) = resolve B s.
Proof.
  intros E Hd He Hn Hw Hi.
  destruct (exec_slug_sound s p1 seg E) as (Hs & H1 & H2).
  destruct (segment_to_end_shape seg H2) as (dir & _ & Hc & [Hq | Hq]);
    [subst dir | subst seg; rewrite endsWith_slash_last in He; discriminate].
  assert (R : resolve B s = Returns (B ++ lit "/" ++ s ++ lit "/index.html")).
  { rewrite (resolve_no_dot_dir B s p1 seg seg E Hd Hc) by auto.
    rewrite Hs, <- app_assoc. reflexivity. }
  rewrite R. repeat split.
  - rewrite (resolve_no_dot_dir B _ p1 (seg ++ lit "/") seg
               (exec_slug_add_slash s p1 seg E He));
      [| apply no_dot_add_slash, Hd | exact Hc | auto].
    rewrite Hs, <- app_assoc. reflexivity.
  - assert (Hds : dot_star s = true).
    { rewrite Hs, dot_star_app, H1, (segment_dot_star seg H2). reflexivity. }
    rewrite (resolve_matched B _ _ _ (exec_slug_resolved s Hds)).
    rewrite append_index_index_html, <- app_assoc. reflexivity.
  - change (lit "." ++ ext) with (Char.dot :: ext) in *.
    rewrite (resolve_matched B _ _ _ (exec_slug_add_ext s p1 seg ext E He Hw)).
    unfold append_index.
    replace (JS.indexOf (seg ++ Char.dot :: ext) Char.dot =? -1)%Z with false.
    + replace (JS.eqb (seg ++ Char.dot :: ext) index_html) with false.
      * simpl negb. cbv iota. rewrite (replace_extension_cut seg ext Hn Hw).
        rewrite Hs, <- app_assoc. reflexivity.
      * symmetry. apply not_true_is_false. rewrite eqb_eq. exact Hi.
    + symmetry. apply Z.eqb_neq. rewrite indexOf_absent. intros H.
      apply H, in_or_app. simpl. auto.
Qed.

Lemma slugs_with_same_destination_witness :
  resolve (lit "/site/dist") (lit "blog/post")
  = Returns (lit "/site/dist" ++ lit "/" ++ lit "blog/post" ++ lit "/index.html")
  /\ resolve (lit "/site/dist") (lit "blog/post" ++ lit "/")
     = resolve (lit "/site/dist") (lit "blog/post")
  /\ resolve (lit "/site/dist") (lit "blog/post" ++ lit "/index.html")
     = resolve (lit "/site/dist") (lit "blog/post")
  /\ resolve (lit "/site/dist") (lit "blog/post" ++ lit "." ++ lit "html")
     = resolve (lit "/site/dist") (lit "blog/post").
Proof.
  apply (slugs_with_same_destination
           (lit "/site/dist") (lit "blog/post") (lit "blog/") (lit "post")
           (lit "html"));
    try reflexivity; discriminate.
Defined.

(** ** What stands before the last slash *)

Lemma exec_slug_under_null a s :
  s <> [] -> exec_slug s = None -> exec_slug (a ++ Char.slash :: s) = None.
Proof.
  intros Hs E. induction a as [|x a IH].
  - rewrite exec_slug_unfold. simpl. rewrite E. reflexivity.
  - rewrite exec_slug_unfold.
    rewrite segment_to_end_slash_inside by exact Hs.
    simpl. rewrite IH. destruct (Char.is_line_terminator x); reflexivity.
Qed.

(** X6: the callback decides on the end of the slug only.  For a prefix
    without line terminator and a slug that is not empty, the prefix, a
    slash and the slug resolve as the slug does, with the prefix and the
    slash carried over as they are; and they throw when the slug
    throws. *)
Theorem prefix_carried_over (B a s : jsstring) :
  dot_star a = true -> s <> [] ->
  resolve B (a ++ lit "/" ++ s)
  = match resolve_path s with
    | Returns p => Returns (B ++ lit "/" ++ a ++ lit "/" ++ p)
    | Throws _ => Throws (incorrect_slug (a ++ lit "/" ++ s))
    end.
Proof.
  intros Ha Hs. destruct (resolve_path s) as [p|m] eqn:R.
  - apply resolve_of_path, resolve_path_under; assumption.
  - apply resolve_throws, resolve_path_null.
    apply (exec_slug_under_null a s Hs).
    apply (resolve_path_throws s m R).
Qed.

Lemma prefix_carried_over_witness :
  resolve (lit "/site/dist") (lit "../2020" ++ lit "/" ++ lit "post.html")
  = Returns (lit "/site/dist" ++ lit "/" ++ lit "../2020" ++ lit "/"
             ++ lit "post/index.html").
Proof.
  apply (prefix_carried_over (lit "/site/dist") (lit "../2020") (lit "post.html"));
    [reflexivity | discriminate].
Defined.

(** X7: a destination given back as a slug, build directory included, does
    not resolve to itself: the build directory is put in front of it once
    more. *)
Theorem destination_as_slug (B s d : jsstring) :
  dot_star B = true -> resolve B s = Returns d ->
  resolve B d = Returns (B ++ lit "/" ++ d)
  /\ resolve B d <> Returns d.
Proof.
  intros HB H. destruct (resolve_returns B s d H) as (p & Hp & ->).
  destruct (resolve_path_fixed s p Hp) as (_ & Hf).
  assert (R : resolve B (B ++ lit "/" ++ p)
              = Returns (B ++ lit "/" ++ B ++ lit "/" ++ p))
    by (apply resolve_of_path, resolve_path_under; assumption).
  rewrite R. split; [reflexivity|]. intros E. injection E as E.
  apply (f_equal (@List.length _)) in E.
  repeat (rewrite !length_app in E; simpl in E). lia.
Qed.

Lemma destination_as_slug_witness :
  resolve (lit "/site/dist") (lit "/site/dist/about/index.html")
  = Returns (lit "/site/dist" ++ lit "/" ++ lit "/site/dist/about/index.html")
  /\ resolve (lit "/site/dist") (lit "/site/dist/about/index.html")
     <> Returns (lit "/site/dist/about/index.html").
Proof.
  apply (destination_as_slug (lit "/site/dist") (lit "about"));
    reflexivity.
Defined.

(** ** Slugs that cannot resolve *)

(** X8: a slug resolves only if it holds a word character and its last
    code unit is a character of the segment class or a slash. *)
Theorem resolvable_slug_shape (B s d : jsstring) :
  resolve B s = Returns d ->
  (exists w, In w s /\ Char.is_word w = true)
  /\ (exists pre c,
         s = pre ++ [c] /\ (Char.is_segment c = true \/ c = Char.slash)).
Proof.
  intros H. destruct (resolve_returns B s d H) as (p & Hp & _).
  destruct (resolve_path_returns s p Hp) as (p1 & p2 & E & _).
  destruct (exec_slug_sound s p1 p2 E) as (-> & _ & Hs). split.
  - destruct p2 as [|x r]; [discriminate|]. simpl in Hs.
    apply andb_true_iff in Hs. destruct Hs as [Hx _].
    exists x. split; [apply in_or_app; simpl; auto | exact Hx].
  - destruct (segment_to_end_shape p2 Hs) as (dir & Hn & Hc & [-> | ->]).
    + destruct (exists_last Hn) as (t & c & ->).
      exists (p1 ++ t), c. rewrite <- app_assoc. split; [reflexivity|].
      left. rewrite forallb_app in Hc. apply andb_true_iff in Hc.
      destruct Hc as [_ Hc]. simpl in Hc. rewrite andb_true_r in Hc. exact Hc.
    + exists (p1 ++ dir), Char.slash. rewrite <- app_assoc. auto.
Qed.

Lemma resolvable_slug_shape_witness :
  (exists w, In w (lit "about/") /\ Char.is_word w = true)
  /\ (exists pre c,
         lit "about/" = pre ++ [c]
         /\ (Char.is_segment c = true \/ c = Char.slash)).
Proof.
  apply (resolvable_slug_shape
           (lit "/site/dist") (lit "about/")
           (lit "/site/dist/about/index.html")).
  reflexivity.
Defined.

(** X9: a slug that ends in two slashes throws, whatever stands before
    them: the expression allows one slash behind the last segment. *)
Theorem trailing_double_slash_throws (B t : jsstring) :
  resolve B (t ++ lit "//") = Throws (incorrect_slug (t ++ lit "//")).
Proof.
  apply resolve_throws, resolve_path_null.
  change (lit "//") with (Char.slash :: [Char.slash]).
  induction t as [|x t IH]; [reflexivity|].
  rewrite exec_slug_unfold.
  rewrite segment_to_end_slash_inside by discriminate.
  simpl. rewrite IH. destruct (Char.is_line_terminator x); reflexivity.
Qed.

(** ** The string that is dropped *)

(** X10: for a slug that starts with a slash, the string built by
    [replace('^/', '')] starts with that slash too, and is the slug again
    when the slug holds no circumflex: the pattern is looked up as text,
    so taking the result in place of the slug would not remove the
    slash. *)
Theorem replace_keeps_leading_slash (s : jsstring) :
  JS.startsWith s (lit "/") = true ->
  JS.startsWith (JS.replace_string s (lit "^/") []) (lit "/") = true
  /\ (~ In 94 s -> JS.replace_string s (lit "^/") [] = s).
Proof.
  intros H. split; [|apply replace_string_circumflex].
  destruct s as [|x r]; [discriminate|].
  change (JS.startsWith (x :: r) (lit "/"))
    with ((Char.slash =? x) && JS.startsWith r []) in H.
  apply andb_true_iff in H. destruct H as [Hx _].
  apply N.eqb_eq in Hx. subst x.
  change (JS.replace_string (Char.slash :: r) (lit "^/") [])
    with (Char.slash :: JS.replace_string r (lit "^/") []).
  change (JS.startsWith (Char.slash :: ?t) (lit "/"))
    with ((Char.slash =? Char.slash) && JS.startsWith t []).
  cbn [JS.startsWith]. rewrite N.eqb_refl.
  destruct (JS.replace_string r (lit "^/") []); reflexivity.
Qed.

Lemma replace_keeps_leading_slash_witness :
  JS.startsWith (JS.replace_string (lit "/^/about") (lit "^/") []) (lit "/")
  = true
  /\ (~ In 94 (lit "/^/about") ->
      JS.replace_string (lit "/^/about") (lit "^/") [] = lit "/^/about").
Proof.
  apply (replace_keeps_leading_slash (lit "/^/about")). reflexivity.
Defined.

(** * The configuration function *)

(** ** Properties of an object *)

Lemma eqb_refl k : JS.eqb k k = true.
Proof. apply eqb_eq. reflexivity. Qed.

Lemma eqb_neq j k : j <> k -> JS.eqb j k = false.
Proof. intros H. apply not_true_is_false. rewrite eqb_eq. exact H. Qed.

Lemma lookup_define_same k v props : lookup k (define k v props) = v.
Proof.
  induction props as [|[k' v'] props IH]; simpl.
  - rewrite eqb_refl. reflexivity.
  - destruct (JS.eqb k' k) eqn:E; simpl.
    + rewrite eqb_refl. reflexivity.
    + rewrite E. exact IH.
Qed.


Lemma keys_define_new k v props :
  ~ In k (List.map fst props) ->
  List.map fst (define k v props) = List.map fst props ++ [k].
Proof.
  induction props as [|[k' v'] props IH]; simpl; [reflexivity|].
  intros H. rewrite eqb_neq by (intros ->; apply H; auto).
  simpl. rewrite IH by tauto. reflexivity.
Qed.

Section ExportsFacts.

Variables (dirname BUILD_DIR : jsstring).
Variable path_join : jsstring -> jsstring -> jsstring.
Variable path_resolve : list jsstring -> jsstring.
Variable dotenv_config : jsstring -> dotenv_result.
Variable WEBPACK_DEV_SERVER : option jsstring.
Variable cpus_length : Z.
Variable templates_array : list (mapping value).

Let call :=
  exports dirname BUILD_DIR path_join path_resolve dotenv_config
    WEBPACK_DEV_SERVER cpus_length templates_array.
Let config0 := config_literal dirname BUILD_DIR cpus_length.
Let plugins0 := plugins_literal dirname path_resolve templates_array.
Let env_file mode := path_join dirname (lit "." ++ mode_text mode ++ lit ".env").

(** The object of a mode, before the development server is looked at. *)
Let config_of_mode (mode : option jsstring) : list (jsstring * value) :=
  if not_production mode then
    define (lit "devtool") (Str (lit "source-map")) config0
  else
    define (lit "optimization")
      (Obj [(lit "minimize", Bool true);
            (lit "minimizer",
             Arr [New (lit "TerserPlugin") [];
                  New (lit "OptimizeCSSAssetsPlugin") []])])
      config0.

(** The two ways the function returns. *)
Lemma exports_returns mode c h :
  call mode = Returns (c, h) ->
  exists parsed,
    dotenv_config (env_file mode) = Parsed parsed
    /\ ((truthy WEBPACK_DEV_SERVER = true
         /\ c = Obj (define (lit "devServer") (devServer_literal dirname parsed)
                       (config_of_mode mode))
         /\ h = Store (Str (lit "style-loader") :: sassConfig_literal)
                      plugins0 [devServer_literal dirname parsed])
        \/ (truthy WEBPACK_DEV_SERVER = false
            /\ c = Obj (config_of_mode mode)
            /\ h = Store (extract_loader :: sassConfig_literal)
                         (plugins0 ++ [extract_plugin]) [])).
Proof.
  unfold call, exports. fold (env_file mode).
  destruct (dotenv_config (env_file mode)) as [parsed|e]; [|discriminate].
  intros H. exists parsed. split; [reflexivity|].
  fold config0 in H. fold (config_of_mode mode) in H.
  destruct (truthy WEBPACK_DEV_SERVER).
  - left. injection H as <- <-. split; [reflexivity|]. split; [reflexivity|].
    unfold console_log_json, unshift, get. simpl.
    rewrite lookup_define_same. reflexivity.
  - right. injection H as <- <-. auto.
Qed.








(** The first plugin of the object returned. *)
Lemma exports_first_plugin mode c h :
  exports dirname BUILD_DIR path_join path_resolve dotenv_config
    WEBPACK_DEV_SERVER cpus_length templates_array mode = Returns (c, h) ->
  exists configure,
    item (read h (get c (lit "plugins"))) 0
    = New (lit "NunjucksWebpackPlugin")
        [Obj [(lit "templates", Arr (List.map mapping_value templates_array));
              (lit "configure", configure)]].
Proof.
  intros H. destruct (exports_returns mode c h H) as (parsed & _ & Hc).
  destruct Hc as [(Ht & -> & ->) | (Ht & -> & ->)];
    unfold config_of_mode; destruct (not_production mode);
    eexists; reflexivity.
Qed.

End ExportsFacts.

(** ** The module as a whole *)

Lemma nth_map_nth_error {A : Type} (f : A -> value) l i m :
  nth_error l i = Some m -> nth i (List.map f l) Undefined = f m.
Proof.
  revert i. induction l as [|x l IH]; intros [|i]; simpl; try discriminate.
  - intros H. injection H as ->. reflexivity.
  - apply IH.
Qed.

(** X18: when the module loads and its function returns, the Nunjucks
    plugin of the object returned holds one template for each record of
    [data.yaml], in the order of the records: the template at the place
    of a record has the template file of the record under the directory
    of the configuration, the destination of its slug, and its
    context. *)
Theorem load_module_templates (dirname BUILD_DIR : jsstring)
        (path_join : jsstring -> jsstring -> jsstring)
        (path_resolve : list jsstring -> jsstring)
        (dotenv_config : jsstring -> dotenv_result)
        (WEBPACK_DEV_SERVER : option jsstring) (cpus_length : Z)
        (data : list (descriptor value))
        (f : option jsstring -> outcome (value * store))
        (mode : option jsstring) (c : value) (h : store) :
  load_module dirname BUILD_DIR path_join path_resolve dotenv_config
    WEBPACK_DEV_SERVER cpus_length data = Returns f ->
  f mode = Returns (c, h) ->
  exists ts configure,
    item (read h (get c (lit "plugins"))) 0
    = New (lit "NunjucksWebpackPlugin")
        [Obj [(lit "templates", Arr ts); (lit "configure", configure)]]
    /\ List.length ts = List.length data
    /\ forall i v,
        nth_error data i = Some v ->
        exists d,
          resolve BUILD_DIR (slug v) = Returns d
          /\ item (Arr ts) i
             = Obj [(lit "from", Str (dirname ++ lit "/" ++ template v));
                    (lit "to", Str d);
                    (lit "context", context v)].
Proof.
  unfold load_module.
  destruct (templates dirname BUILD_DIR data) as [ms|m] eqn:T; [|discriminate].
  intros Hf Hc. injection Hf as <-.
  destruct (exports_first_plugin _ _ _ _ _ _ _ _ _ _ _ Hc) as (configure & Hp).
  exists (List.map mapping_value ms), configure.
  apply templates_returns in T. split; [exact Hp|]. split.
  - rewrite length_map. symmetry. apply (Forall2_length T).
  - intros i v Hi.
    destruct (Forall2_nth_error _ _ _ T i v Hi) as (m & Hm & Hv).
    destruct (template_of_returns dirname BUILD_DIR value v m Hv)
      as (H1 & H2 & H3).
    exists (to m). split; [exact H3|].
    unfold item. rewrite (nth_map_nth_error mapping_value ms i m Hm).
    unfold mapping_value. rewrite H1, H2. reflexivity.
Qed.

(** ** The properties on a development and on a production call *)







Lemma load_module_templates_witness :
  exists f c h,
    load_module (lit "/site") (lit "/site/dist")
      (fun a b => a ++ lit "/" ++ b) (fun l => List.concat l)
      (fun _ => Parsed (fun _ => None)) None 4
      [Descriptor (lit "about") (lit "about.njk") (Str (lit "About"));
       Descriptor (lit "blog/post.html") (lit "post.njk") (Num 7)]
    = Returns f
    /\ f None = Returns (c, h)
    /\ exists ts configure,
        item (read h (get c (lit "plugins"))) 0
        = New (lit "NunjucksWebpackPlugin")
            [Obj [(lit "templates", Arr ts); (lit "configure", configure)]]
        /\ List.length ts = 2%nat.
Proof.
  eexists. eexists. eexists. split; [reflexivity|]. split; [reflexivity|].
  destruct (load_module_templates (lit "/site") (lit "/site/dist")
              (fun a b => a ++ lit "/" ++ b) (fun l => List.concat l)
              (fun _ => Parsed (fun _ => None)) None 4
              [Descriptor (lit "about") (lit "about.njk") (Str (lit "About"));
               Descriptor (lit "blog/post.html") (lit "post.njk") (Num 7)]
              _ None _ _ eq_refl eq_refl)
    as (ts & configure & H1 & H2 & _).
  exists ts, configure. exact (conj H1 H2).
Defined.
